(** * remote-tasks: the task queue, the agent runner and log replay

    A shallow embedding of
      - [worker/schema.sql] and [worker/index.ts] (the D1 tables, the
        HTTP handlers of the Cloudflare worker and its table of routes),
      - [src/index.ts] (the [WorkerClient] and the CLI commands [add],
        [requeue], [run], [list], [clean], [reset]),
      - [worker/index.html] ([replayLogs] of the web interface),
    followed by the properties of the task life cycle.

    Conventions of the embedding.
      - A table is the list of its rows in rowid order, which is the order
        in which SQLite stores them.  A SELECT without ORDER BY gives the
        rows in that order, also when it finds them through the index on
        [tag] or on [task_id], where the entries of one key are in rowid
        order; [ORDER BY id] is written out as a sort wherever the source
        has it.  [SELECT DISTINCT tag] is answered from the index on
        [tag], in ascending order of the tag.
      - Each SQL statement is one atomic function on the database.  A
        handler that issues two statements is also given as a two-step
        machine, so that handlers of concurrent requests can interleave.
      - The [task] column holds [JSON.stringify] of an object with the keys
        [command], [exitCode], [lastHeartbeat]; the [log] column holds
        [JSON.stringify] of [{timestamp, entries}].  Both are kept as the
        parsed object: [JSON.parse] after [JSON.stringify] gives the object
        back.  [null] is [None].
      - [new Date().toISOString()] is a clock reading, kept as the number
        of milliseconds it denotes.
      - A promise that rejects, or a function that throws, returns
        [Throw e].
      - The client writes a tag into the path of the URL as it is.  What
        the URL parser of [fetch] and the patterns of the router make of
        such a path, that is which route the request ends at and with
        which parameter, is not fixed here: it is a component of the
        [Host].  An id is written in decimal digits, and a path made of
        fixed words and digits reaches its route as written. *)

From Stdlib Require Import ZArith NArith Ascii String List Lia.
From stdpp Require Import base tactics option list numbers strings pretty sorting.

Local Open Scope Z_scope.
Local Open Scope string_scope.

(** ** Base64, as produced by [Buffer.toString('base64')] and read by [atob] *)

Module Base64.

Definition alphabet : string :=
  "ABCDEFGHIJKLMNOPQRSTUVWXYZabcdefghijklmnopqrstuvwxyz0123456789+/".

(** The character of a 6-bit value. *)
Definition digit (n : N) : ascii :=
  match String.get (N.to_nat n) alphabet with
  | Some c => c
  | None => "="%char
  end.

(** The 6-bit value of a character of the alphabet. *)
Definition value (c : ascii) : option N :=
  let n := N_of_ascii c in
  if (65 <=? n)%N && (n <=? 90)%N then Some (n - 65)%N
  else if (97 <=? n)%N && (n <=? 122)%N then Some (n - 71)%N
  else if (48 <=? n)%N && (n <=? 57)%N then Some (n + 4)%N
  else if (n =? 43)%N then Some 62%N
  else if (n =? 47)%N then Some 63%N
  else None.

(** [Buffer.from(data).toString('base64')]: three bytes give four
    characters, the last group is padded with [=]. *)
Fixpoint encode (bytes : list ascii) : string :=
  match bytes with
  | [] => ""
  | [a] =>
      let n := (N_of_ascii a * 16)%N in
      String (digit (n / 64)) (String (digit (n mod 64)) "==")
  | [a; b] =>
      let n := ((N_of_ascii a * 256 + N_of_ascii b) * 4)%N in
      String (digit (n / 4096))
        (String (digit ((n / 64) mod 64)) (String (digit (n mod 64)) "="))
  | a :: b :: c :: rest =>
      let n := ((N_of_ascii a * 256 + N_of_ascii b) * 256 + N_of_ascii c)%N in
      String (digit (n / 262144))
        (String (digit ((n / 4096) mod 64))
           (String (digit ((n / 64) mod 64))
              (String (digit (n mod 64)) (encode rest))))
  end.

Definition is_space (c : ascii) : bool :=
  let n := N_of_ascii c in
  (n =? 9)%N || (n =? 10)%N || (n =? 12)%N || (n =? 13)%N || (n =? 32)%N.

(** Removes up to [k] trailing [=] of a reversed character list. *)
Fixpoint strip_padding (k : nat) (rev_chars : list ascii) : list ascii :=
  match k, rev_chars with
  | S k', c :: rest =>
      if Ascii.eqb c "="%char then strip_padding k' rest else rev_chars
  | _, _ => rev_chars
  end.

(** Accumulates 6 bits per character and emits a byte whenever 8 bits
    are there; the bits left at the end are dropped. *)
Fixpoint decode_chars (chars : list ascii) (acc : N) (bits : N)
  : option (list ascii) :=
  match chars with
  | [] => Some []
  | c :: rest =>
      match value c with
      | None => None
      | Some v =>
          let acc' := (acc * 64 + v)%N in
          let bits' := (bits + 6)%N in
          if (8 <=? bits')%N then
            let sh := (bits' - 8)%N in
            match decode_chars rest (acc' mod 2 ^ sh)%N sh with
            | None => None
            | Some out => Some (ascii_of_N (acc' / 2 ^ sh) :: out)
            end
          else decode_chars rest acc' bits'
      end
  end.

(** [atob]: the forgiving base64 decoder of browsers.  [None] is the
    [InvalidCharacterError] it throws. *)
Definition atob (data : string) : option (list ascii) :=
  let chars := List.filter (fun c => negb (is_space c)) (list_ascii_of_string data) in
  let chars :=
    if (Z.of_nat (length chars) mod 4 =? 0)%Z
    then rev (strip_padding 2 (rev chars)) else chars in
  if (Z.of_nat (length chars) mod 4 =? 1)%Z then None
  else decode_chars chars 0%N 0%N.

End Base64.

(** ** The rows of the two tables (worker/schema.sql) *)

(** The object kept, stringified, in the [task] column. *)
Record TaskData := mkTaskData {
  command : list string;
  exitCode : option Z;
  lastHeartbeat : option Z
}.

(** A row of [tasks]; also the [Task] of the client. *)
Record Task := mkTask {
  id : Z;
  tag : string;
  task : TaskData;
  status : string
}.

(** One captured piece of output: [{ type, data }], [data] in base64. *)
Record LogEntry := mkLogEntry {
  type : string;
  data : string
}.

(** The object kept, stringified, in the [log] column. *)
Record LogChunk := mkLogChunk {
  timestamp : Z;
  entries : list LogEntry
}.

(** A row of [logs]. *)
Record LogRow := mkLogRow {
  log_id : Z;
  task_id : Z;
  log : LogChunk
}.

(** The D1 database: both tables and the [sqlite_sequence] entry that
    [AUTOINCREMENT] keeps for [tasks]. *)
Record D1 := mkD1 {
  tasks : list Task;
  tasks_seq : Z;
  logs : list LogRow
}.

Definition empty_db : D1 := mkD1 [] 0 [].

#[global] Instance TaskData_eq_dec : EqDecision TaskData.
Proof. solve_decision. Defined.
#[global] Instance Task_eq_dec : EqDecision Task.
Proof. solve_decision. Defined.
#[global] Instance LogEntry_eq_dec : EqDecision LogEntry.
Proof. solve_decision. Defined.
#[global] Instance LogChunk_eq_dec : EqDecision LogChunk.
Proof. solve_decision. Defined.
#[global] Instance LogRow_eq_dec : EqDecision LogRow.
Proof. solve_decision. Defined.

(** ** The SQL statements of worker/index.ts, one function each *)

(** The statuses the worker's [taskSchema] lets through. *)
Definition status_enum : list string := ["pending"; "running"; "done"].

Definition max_id (rows : list Task) : Z :=
  foldr (fun r m => Z.max (id r) m) 0 rows.

Definition max_log_id (rows : list LogRow) : Z :=
  foldr (fun r m => Z.max (log_id r) m) 0 rows.

(** [INSERT INTO tasks (tag, task, status) VALUES (?, ?, ?)].  The id is
    [AUTOINCREMENT]: one more than the largest id the table ever had.
    The second component is [meta.last_row_id]. *)
Definition insert_task (tg : string) (tk : TaskData) (st : string) (db : D1)
  : D1 * Z :=
  let i := Z.max (max_id (tasks db)) (tasks_seq db) + 1 in
  (mkD1 (tasks db ++ [mkTask i tg tk st]) i (logs db), i).

(** [SELECT * FROM tasks WHERE id = ?] *)
Definition select_task (i : Z) (db : D1) : list Task :=
  filter (fun r => id r = i) (tasks db).

(** [SELECT * FROM tasks WHERE tag = ?] *)
Definition select_tasks_by_tag (tg : string) (db : D1) : list Task :=
  filter (fun r => tag r = tg) (tasks db).

(** [ORDER BY id] *)
Definition id_le (a b : Task) : Prop := id a <= id b.

#[global] Instance id_le_dec a b : Decision (id_le a b).
Proof. unfold id_le. apply _. Defined.

Definition order_by_id (rows : list Task) : list Task := merge_sort id_le rows.

(** [SELECT * FROM tasks WHERE tag = ? AND status = "pending"
     ORDER BY id LIMIT 1], read with [.first()]. *)
Definition select_next_pending (tg : string) (db : D1) : option Task :=
  head (order_by_id (filter (fun r => tag r = tg /\ status r = "pending") (tasks db))).

(** [UPDATE tasks SET status = "running" WHERE id = ? AND status = "pending"].
    The second component is [meta.changed_db]. *)
Definition update_start (i : Z) (db : D1) : D1 * bool :=
  (mkD1 (map (fun r =>
            if decide (id r = i /\ status r = "pending")
            then mkTask (id r) (tag r) (task r) "running" else r) (tasks db))
        (tasks_seq db) (logs db),
   bool_decide (Exists (fun r => id r = i /\ status r = "pending") (tasks db))).

(** [UPDATE tasks SET tag = ?, task = ?, status = ? WHERE id = ?] *)
Definition update_task (i : Z) (tg : string) (tk : TaskData) (st : string)
    (db : D1) : D1 :=
  mkD1 (map (fun r => if decide (id r = i) then mkTask (id r) tg tk st else r)
          (tasks db))
       (tasks_seq db) (logs db).

(** [DELETE FROM tasks WHERE ...]; the logs of the deleted tasks go with
    them ([ON DELETE CASCADE]).  The second component is [meta.changes],
    which counts the deleted rows of [tasks] and the rows of [logs] the
    cascade deleted with them. *)
Definition delete_where (P : Task -> Prop) `{!forall r, Decision (P r)} (db : D1)
  : D1 * Z :=
  let gone := filter P (tasks db) in
  let cascaded := filter (fun l => task_id l ∈ map id gone) (logs db) in
  (mkD1 (filter (fun r => ~ P r) (tasks db)) (tasks_seq db)
        (filter (fun l => task_id l ∉ map id gone) (logs db)),
   Z.of_nat (length gone + length cascaded)).

(** [INSERT INTO logs (task_id, log) VALUES (?, ?)].  The id is a plain
    [INTEGER PRIMARY KEY]: one more than the largest id in the table.
    [None] is the foreign-key failure when no task has this id. *)
Definition insert_log (tid : Z) (lg : LogChunk) (db : D1) : option D1 :=
  if decide (tid ∈ map id (tasks db))
  then Some (mkD1 (tasks db) (tasks_seq db)
               (logs db ++ [mkLogRow (max_log_id (logs db) + 1) tid lg]))
  else None.

(** [SELECT * FROM logs WHERE task_id = ?] *)
Definition select_logs (tid : Z) (db : D1) : list LogRow :=
  filter (fun l => task_id l = tid) (logs db).

(** ** The handlers of worker/index.ts *)

(** What a handler passes to [JSON.stringify], or the text it answers. *)
Inductive Body :=
| JNull
| JTask (t : Task)
| JTasks (ts : list Task)
| JStrings (ss : list string)
| JNumber (n : Z)
| JOk
| JLogs (ls : list LogChunk)
| JErrors
| Text (s : string).

Record Response := mkResponse {
  res_status : Z;
  res_body : Body
}.

#[global] Instance Body_eq_dec : EqDecision Body.
Proof. solve_decision. Defined.
#[global] Instance Response_eq_dec : EqDecision Response.
Proof. solve_decision. Defined.

(** [JSON.stringify(task)] of what [.first()] gave: a row or [null]. *)
Definition json_first (t : option Task) : Body :=
  match t with Some r => JTask r | None => JNull end.

(** The order of the index on [tag]: the tags compared code unit by code
    unit. *)
Definition tag_le (a b : string) : Prop := String.leb a b = true.

#[global] Instance tag_le_dec a b : Decision (tag_le a b).
Proof. unfold tag_le. apply _. Defined.

(** GET /tags: [SELECT DISTINCT tag FROM tasks], each tag once, in the
    order of the index. *)
Definition get_tags (db : D1) : D1 * Response :=
  (db, mkResponse 200
         (JStrings (merge_sort tag_le (remove_dups (map tag (tasks db)))))).

(** GET /tasks *)
Definition get_tasks (db : D1) : D1 * Response :=
  (db, mkResponse 200 (JTasks (tasks db))).

(** POST /tasks *)
Definition post_tasks (tg : string) (tk : TaskData) (st : string) (db : D1)
  : D1 * Response :=
  if decide (st ∈ status_enum) then
    let '(db', last_row_id) := insert_task tg tk st db in
    (db', mkResponse 201 (json_first (head (select_task last_row_id db'))))
  else (db, mkResponse 400 JErrors).

(** DELETE /tasks *)
Definition delete_tasks (db : D1) : D1 * Response :=
  let '(db', changes) := delete_where (fun _ => True) db in
  (db', mkResponse 200 (JNumber changes)).

(** DELETE /tasks/completed *)
Definition delete_tasks_completed (db : D1) : D1 * Response :=
  let '(db', changes) := delete_where (fun r => status r = "done") db in
  (db', mkResponse 200 (JNumber changes)).

(** GET /tasks/tag/:tag *)
Definition get_tasks_tag (tg : string) (db : D1) : D1 * Response :=
  (db, mkResponse 200 (JTasks (select_tasks_by_tag tg db))).

(** DELETE /tasks/tag/:tag *)
Definition delete_tasks_tag (tg : string) (db : D1) : D1 * Response :=
  let '(db', changes) := delete_where (fun r => tag r = tg) db in
  (db', mkResponse 200 (JNumber changes)).

(** DELETE /tasks/tag/:tag/completed *)
Definition delete_tasks_tag_completed (tg : string) (db : D1) : D1 * Response :=
  let '(db', changes) :=
    delete_where (fun r => tag r = tg /\ status r = "done") db in
  (db', mkResponse 200 (JNumber changes)).

(** POST /tasks/start/:tag, statement by statement.  The handler is at
    its SELECT, at its UPDATE (holding what the SELECT gave), or has
    answered. *)
Inductive StartPc :=
| AtSelect (tg : string)
| AtUpdate (sel : option Task)
| Answered (res : Response).

Definition start_step (pc : StartPc) (db : D1) : D1 * StartPc :=
  match pc with
  | AtSelect tg => (db, AtUpdate (select_next_pending tg db))
  | AtUpdate (Some t) =>
      let '(db', changed_db) := update_start (id t) db in
      if changed_db then (db', Answered (mkResponse 200 (json_first (Some t))))
      else (db', Answered (mkResponse 409 (Text "Task status was already changed")))
  | AtUpdate None => (db, Answered (mkResponse 200 (json_first None)))
  | Answered res => (db, Answered res)
  end.

(** POST /tasks/start/:tag, served without another request in between. *)
Definition post_tasks_start (tg : string) (db : D1) : D1 * Response :=
  match select_next_pending tg db with
  | Some t =>
      let '(db', changed_db) := update_start (id t) db in
      if changed_db then (db', mkResponse 200 (json_first (Some t)))
      else (db', mkResponse 409 (Text "Task status was already changed"))
  | None => (db, mkResponse 200 (json_first None))
  end.

(** GET /tasks/:id; the rows come from [.all()], so the answer is an array. *)
Definition get_task (i : Z) (db : D1) : D1 * Response :=
  (db, mkResponse 200 (JTasks (select_task i db))).

(** PUT /tasks/:id; the schema keeps [tag], [task], [status] of the body. *)
Definition put_task (i : Z) (body : Task) (db : D1) : D1 * Response :=
  if decide (status body ∈ status_enum) then
    (update_task i (tag body) (task body) (status body) db, mkResponse 200 JOk)
  else (db, mkResponse 400 JErrors).

(** DELETE /tasks/:id *)
Definition delete_task (i : Z) (db : D1) : D1 * Response :=
  (fst (delete_where (fun r => id r = i) db), mkResponse 200 JOk).

(** POST /logs; a statement that fails makes the worker answer 500. *)
Definition post_logs (tid : Z) (lg : LogChunk) (db : D1) : D1 * Response :=
  match insert_log tid lg db with
  | Some db' => (db', mkResponse 201 JOk)
  | None => (db, mkResponse 500 (Text "Internal Server Error"))
  end.

(** GET /logs/:task_id *)
Definition get_logs (tid : Z) (db : D1) : D1 * Response :=
  (db, mkResponse 200 (JLogs (map log (select_logs tid db)))).

(** ** The router of worker/index.ts *)

(** The routes in the order they are registered, each with the parameter
    the router takes from the path.  [GET_any] is the last route,
    [GET *]; [no_route] is a request that no route matches.  The
    parameter of a tag route is the text of the path segment, as the
    router found it.  [:id] and [:task_id] are compared with an INTEGER
    column: they are kept as the integer the text of the segment reads
    as, [None] when it reads as none. *)
Inductive Route :=
| GET_tags
| GET_tasks
| POST_tasks
| DELETE_tasks
| DELETE_tasks_completed
| GET_tasks_tag (tg : string)
| DELETE_tasks_tag (tg : string)
| DELETE_tasks_tag_completed (tg : string)
| POST_tasks_start (tg : string)
| GET_tasks_id (i : option Z)
| PUT_tasks_id (i : option Z)
| DELETE_tasks_id (i : option Z)
| POST_logs
| GET_logs (tid : option Z)
| GET_any
| no_route.

(** What the worker answers when a handler throws or no handler
    answers. *)
Definition internal_error : Response :=
  mkResponse 500 (Text "Internal Server Error").

(** [router.fetch] for a request that carries no body, as the requests
    with a tag in their path do.  The three handlers that read a body
    throw on [request.json()]; an id that reads as no integer matches no
    row. *)
Definition router_fetch (route : Route) (db : D1) : D1 * Response :=
  match route with
  | GET_tags => get_tags db
  | GET_tasks => get_tasks db
  | POST_tasks => (db, internal_error)
  | DELETE_tasks => delete_tasks db
  | DELETE_tasks_completed => delete_tasks_completed db
  | GET_tasks_tag tg => get_tasks_tag tg db
  | DELETE_tasks_tag tg => delete_tasks_tag tg db
  | DELETE_tasks_tag_completed tg => delete_tasks_tag_completed tg db
  | POST_tasks_start tg => post_tasks_start tg db
  | GET_tasks_id (Some i) => get_task i db
  | GET_tasks_id None => (db, mkResponse 200 (JTasks []))
  | PUT_tasks_id _ => (db, internal_error)
  | DELETE_tasks_id (Some i) => delete_task i db
  | DELETE_tasks_id None => (db, mkResponse 200 JOk)
  | POST_logs => (db, internal_error)
  | GET_logs (Some tid) => get_logs tid db
  | GET_logs None => (db, mkResponse 200 (JLogs []))
  | GET_any => (db, mkResponse 404 (Text "Not found"))
  | no_route => (db, internal_error)
  end.

(** ** [WorkerClient] of src/index.ts *)

(** [ExecaError] carries the exit code of the command that failed, [None]
    when a signal ended it. *)
Inductive Error :=
| ResponseError (message : string) (http_status : Z)
| FetchError
| ExecaError (exit : option Z)
| SyntaxError
| PlainError (message : string).

Inductive Outcome (A : Type) :=
| Ok (a : A)
| Throw (e : Error).
Arguments Ok {A} a.
Arguments Throw {A} e.

(** What the network does to one request: it goes through, it is lost
    before the worker sees it, or the answer is lost on the way back.
    In the last two cases [fetch] rejects. *)
Inductive Net := delivered | request_lost | response_lost.

(** The zod schemas the client checks answers with. *)
Definition taskSchema (b : Body) : option Task :=
  match b with JTask t => Some t | _ => None end.

Definition taskOrNullSchema (b : Body) : option (option Task) :=
  match b with JTask t => Some (Some t) | JNull => Some None | _ => None end.

Definition okSchema (b : Body) : option unit :=
  match b with JOk => Some tt | _ => None end.

Definition tasksSchema (b : Body) : option (list Task) :=
  match b with JTasks ts => Some ts | _ => None end.

Definition numberSchema (b : Body) : option Z :=
  match b with JNumber n => Some n | _ => None end.

Definition logsSchema (b : Body) : option (list LogChunk) :=
  match b with JLogs ls => Some ls | _ => None end.

(** [request], from the answer on: a status outside 200..299 throws, and
    so does a body the schema rejects. *)
Definition read_response {T} (schema : Body -> option T) (res : Response)
  : Outcome T :=
  if decide (200 <= res_status res < 300) then
    match schema (res_body res) with
    | Some v => Ok v
    | None => Throw (ResponseError "Response parsing failed" 500)
    end
  else
    Throw (ResponseError ("Request failed with status " +:+ pretty (res_status res))
             (res_status res)).

Definition request {T} (net : Net) (handler : D1 -> D1 * Response)
    (schema : Body -> option T) (db : D1) : D1 * Outcome T :=
  match net with
  | request_lost => (db, Throw FetchError)
  | response_lost => (fst (handler db), Throw FetchError)
  | delivered => let '(db', res) := handler db in (db', read_response schema res)
  end.

Definition getTasks (net : Net) := request net get_tasks tasksSchema.

Definition createTask (net : Net) (tg : string) (tk : TaskData) (st : string) :=
  request net (post_tasks tg tk st) taskSchema.

Definition deleteTasks (net : Net) := request net delete_tasks numberSchema.

Definition deleteCompletedTasks (net : Net) :=
  request net delete_tasks_completed numberSchema.

(** The machine the CLI runs on and the way to the worker: execa's
    [parseCommandString], the exit code a preparation command ends with,
    and [route_of method endpoint], the route a request ends at when the
    client has written [endpoint], with a tag inside, behind the URL of
    the worker. *)
Record Host := mkHost {
  parseCommandString : string -> list string;
  exit_of : list string -> Z;
  route_of : string -> string -> Route
}.

Definition getTasksByTag (h : Host) (net : Net) (tg : string) :=
  request net (router_fetch (route_of h "GET" ("/tasks/tag/" +:+ tg))) tasksSchema.

Definition deleteTasksByTag (h : Host) (net : Net) (tg : string) :=
  request net (router_fetch (route_of h "DELETE" ("/tasks/tag/" +:+ tg)))
    numberSchema.

Definition deleteCompletedTasksByTag (h : Host) (net : Net) (tg : string) :=
  request net
    (router_fetch (route_of h "DELETE" ("/tasks/tag/" +:+ tg +:+ "/completed")))
    numberSchema.

Definition startNextTask (h : Host) (net : Net) (tg : string) :=
  request net (router_fetch (route_of h "POST" ("/tasks/start/" +:+ tg)))
    taskOrNullSchema.

Definition getTaskById (net : Net) (i : Z) := request net (get_task i) taskSchema.

Definition updateTask (net : Net) (t : Task) :=
  request net (put_task (id t) t) okSchema.

Definition deleteTask (net : Net) (i : Z) := request net (delete_task i) okSchema.

Definition appendLog (net : Net) (tid : Z) (lg : LogChunk) :=
  request net (post_logs tid lg) okSchema.

Definition getLogs (net : Net) (tid : Z) := request net (get_logs tid) logsSchema.

(** ** The commands of src/index.ts *)

Record Config := mkConfig {
  worker : string;
  preTask : option (list (string + list string));
  defaultTag : option string
}.

(** [if (!tag) tag = config.defaultTag; if (!tag) throw]: an empty string
    counts as no tag. *)
Definition truthy (s : option string) : option string :=
  match s with
  | Some "" => None
  | _ => s
  end.

Definition pick_tag (cfg : Config) (tg : option string) : option string :=
  match truthy tg with
  | Some t => Some t
  | None => truthy (defaultTag cfg)
  end.

(** [add] *)
Definition add (cfg : Config) (net : Net) (tg : option string)
    (cmd : list string) (db : D1) : D1 * Outcome Task :=
  match pick_tag cfg tg with
  | None => (db, Throw (PlainError "Tag is required"))
  | Some t => createTask net t (mkTaskData cmd None None) "pending" db
  end.

(** [remove], one id *)
Definition remove (net : Net) (i : Z) (db : D1) : D1 * Outcome unit :=
  deleteTask net i db.

(** The record [requeue] builds from the one it fetched. *)
Definition requeued (t : Task) : Task :=
  mkTask (id t) (tag t) (mkTaskData (command (task t)) None None) "pending".

(** [requeue], one id *)
Definition requeue (net_get net_put : Net) (i : Z) (db : D1)
  : D1 * Outcome unit :=
  let '(db1, fetched) := getTaskById net_get i db in
  match fetched with
  | Throw e => (db1, Throw e)
  | Ok t => updateTask net_put (requeued t) db1
  end.

(** [clean] and [reset], after the prompts *)
Definition clean (h : Host) (net : Net) (tg : option string) (db : D1)
  : D1 * Outcome Z :=
  match truthy tg with
  | Some t => deleteCompletedTasksByTag h net t db
  | None => deleteCompletedTasks net db
  end.

Definition reset (h : Host) (net : Net) (tg : option string) (db : D1)
  : D1 * Outcome Z :=
  match truthy tg with
  | Some t => deleteTasksByTag h net t db
  | None => deleteTasks net db
  end.

(** *** [runNextTask] *)

(** What a cycle does, in the order it does it. *)
Inductive Action :=
| Claim (tg : string)
| PreTask (cmd : list string) (exit : Z)
| Spawn (cmd : list string).

(** The command of one entry of [config.preTask]. *)
Definition preTask_command (h : Host) (c : string + list string) : list string :=
  match c with inl s => parseCommandString h s | inr a => a end.

(** The loop over [config.preTask]: execa rejects on the first command
    that does not exit with 0. *)
Fixpoint run_preTask (h : Host) (cmds : list (string + list string))
  : list Action * Outcome unit :=
  match cmds with
  | [] => ([], Ok tt)
  | c :: rest =>
      let cmd := preTask_command h c in
      let code := exit_of h cmd in
      if decide (code = 0) then
        let '(acts, o) := run_preTask h rest in (PreTask cmd code :: acts, o)
      else ([PreTask cmd code], Throw (ExecaError (Some code)))
  end.

(** A child under way: the objects [task] and [taskData], the array
    [logs], and whether the two intervals are still set.  The promise
    execa gives for the child is neither awaited nor caught; what its
    rejection does is part of [on_close]. *)
Record Run := mkRun {
  run_task : Task;
  taskData : TaskData;
  run_logs : list LogEntry;
  intervals : bool
}.

(** How [runNextTask] ends: it returns [false], it returns [true] with a
    child spawned, or its promise rejects. *)
Inductive Cycle :=
| NoTask
| Started (r : Run)
| Rejected (e : Error).

(** [runNextTask], up to its [return true]: the claim, the preparation
    commands, the spawn.  The function returns while the child runs;
    the end of the child, with the rejection of its promise when it
    fails, is [on_close]. *)
Definition runNextTask (cfg : Config) (h : Host) (net : Net) (tg : string)
    (db : D1) : D1 * list Action * Cycle :=
  let '(db1, claimed) := startNextTask h net tg db in
  match claimed with
  | Throw e => (db1, [Claim tg], Rejected e)
  | Ok None => (db1, [Claim tg], NoTask)
  | Ok (Some t) =>
      let td := task t in
      let '(acts, prepared) :=
        match preTask cfg with
        | Some cmds => run_preTask h cmds
        | None => ([], Ok tt)
        end in
      match prepared with
      | Throw e => (db1, Claim tg :: acts, Rejected e)
      | Ok _ =>
          (db1, Claim tg :: acts ++ [Spawn (command td)],
           Started (mkRun t td [] true))
      end
  end.

(** The [transform] of [stdout] / [stderr]: one chunk of output is pushed
    on [logs] in base64. *)
Definition capture (stream : string) (bytes : list ascii) (r : Run) : Run :=
  mkRun (run_task r) (taskData r)
    (run_logs r ++ [mkLogEntry stream (Base64.encode bytes)]) (intervals r).

(** [sendLogs] *)
Definition sendLogs (now : Z) (net : Net) (r : Run) (db : D1)
  : Run * D1 * Outcome unit :=
  match run_logs r with
  | [] => (r, db, Ok tt)
  | _ :: _ =>
      let lg := mkLogChunk now (run_logs r) in
      let r' := mkRun (run_task r) (taskData r) [] (intervals r) in
      let '(db', o) := appendLog net (id (run_task r)) lg db in
      (r', db', o)
  end.

(** The callback of [heartbeatInterval]; the update is not awaited. *)
Definition heartbeat (now : Z) (net : Net) (r : Run) (db : D1) : Run * D1 :=
  let td := mkTaskData (command (taskData r)) (exitCode (taskData r)) (Some now) in
  let t := run_task r in
  (mkRun t td (run_logs r) (intervals r),
   fst (updateTask net (mkTask (id t) (tag t) td (status t)) db)).

(** The end of the [close] handler: the exit code and the status "done"
    are written to the store. *)
Definition finalize (code : option Z) (net_task : Net) (r : Run) (db : D1)
  : Run * D1 * Outcome unit :=
  let td := mkTaskData (command (taskData r)) code (lastHeartbeat (taskData r)) in
  let t := mkTask (id (run_task r)) (tag (run_task r)) (task (run_task r)) "done" in
  let '(db', o) := updateTask net_task (mkTask (id t) (tag t) td (status t)) db in
  (mkRun t td (run_logs r) false, db', o).

(** The end of a child.  [code] is the exit code, [null] when a signal
    ended the child.

    With exit code 0 the handler of the [close] event runs to its end:
    the intervals are cleared, what is left in the buffer is sent, then
    the task is finalized.

    With any other exit code, or a signal, the promise of the child
    rejects with an [ExecaError].  Nothing awaits or catches that
    promise, so Node ends the runner on the unhandled rejection.  The
    handler has by then cleared the intervals and drained the buffer,
    but no request of it goes out: nothing reaches the store. *)
Definition on_close (code : option Z) (now : Z) (net_log net_task : Net)
    (r : Run) (db : D1) : Run * D1 * Outcome unit :=
  let r0 := mkRun (run_task r) (taskData r) (run_logs r) false in
  match code with
  | Some 0 =>
      let '(r1, db1, sent) :=
        match run_logs r0 with
        | [] => (r0, db, Ok tt)
        | _ :: _ => sendLogs now net_log r0 db
        end in
      match sent with
      | Throw e => (r1, db1, Throw e)
      | Ok _ => finalize code net_task r1 db1
      end
  | _ => (mkRun (run_task r) (taskData r) [] false, db, Throw (ExecaError code))
  end.

(** ** The requeue button and the log replay of worker/index.html *)

(** [handleRequeue]: the answer of GET /tasks/:id is taken as the task; on
    anything but a task object [taskData.task] is [undefined] and
    [JSON.parse] throws. *)
Definition handleRequeue (i : Z) (db : D1) : D1 * Outcome unit :=
  let '(db1, res) := get_task i db in
  match res_body res with
  | JTask t =>
      let '(db2, _) := put_task i (requeued t) db1 in (db2, Ok tt)
  | _ => (db1, Throw SyntaxError)
  end.

(** [decodeBase64]: the bytes of [atob(data)]. *)
Definition decodeBase64 (s : string) : option (list ascii) := Base64.atob s.

(** [log.entries.forEach(entry => terminal.write(...))].  The terminal is
    the bytes written to it so far; the flag is [false] when [atob]
    threw, which ends the replay there. *)
Fixpoint write_entries (es : list LogEntry) (terminal : list ascii)
  : list ascii * bool :=
  match es with
  | [] => (terminal, true)
  | e :: rest =>
      match decodeBase64 (data e) with
      | Some bytes => write_entries rest (terminal ++ bytes)
      | None => (terminal, false)
      end
  end.

Fixpoint write_logs (ls : list LogChunk) (terminal : list ascii)
  : list ascii * bool :=
  match ls with
  | [] => (terminal, true)
  | l :: rest =>
      let '(terminal', finished) := write_entries (entries l) terminal in
      if finished then write_logs rest terminal' else (terminal', false)
  end.

(** [array.slice(0, position)]: a negative position counts from the end. *)
Definition slice0 {A} (position : Z) (l : list A) : list A :=
  if decide (position < 0)
  then take (Z.to_nat (Z.max (Z.of_nat (length l) + position) 0)) l
  else take (Z.to_nat position) l.

(** [terminal.reset()] drops what the terminal has shown. *)
Definition terminal_reset (terminal : list ascii) : list ascii := [].

(** [replayLogs]: the terminal is reset, then the chunks before
    [position] are written to it. *)
Definition replayLogs (stored : list LogChunk) (position : Z)
    (terminal : list ascii) : list ascii * bool :=
  write_logs (slice0 position stored) (terminal_reset terminal).

(** ** Concurrent requests to POST /tasks/start/:tag *)

(** The handlers of the callers, each at its own statement; [turn k] lets
    the handler of caller [k] issue its next statement. *)
Definition turn (k : nat) (s : D1 * list StartPc) : D1 * list StartPc :=
  match s.2 !! k with
  | Some pc => let '(db', pc') := start_step pc s.1 in (db', <[k := pc']> s.2)
  | None => s
  end.

(** All callers start at their SELECT; [schedule] says whose statement
    comes next. *)
Definition race (tags : list string) (schedule : list nat) (db : D1)
  : D1 * list StartPc :=
  foldl (fun s k => turn k s) (db, map AtSelect tags) schedule.

(** The handler has answered with task [i]. *)
Definition receives (i : Z) (pc : StartPc) : Prop :=
  exists t, pc = Answered (mkResponse 200 (JTask t)) /\ id t = i.

(** What [startNextTask] gives the caller for the handler's answer. *)
Definition claim_result (pc : StartPc) : option (Outcome (option Task)) :=
  match pc with
  | Answered res => Some (read_response taskOrNullSchema res)
  | _ => None
  end.

(** ** The statements the worker can issue, and the databases they reach *)

Inductive Stmt :=
| InsertTask (tg : string) (tk : TaskData) (st : string)
| UpdateStart (i : Z)
| UpdateTask (i : Z) (tg : string) (tk : TaskData) (st : string)
| DeleteAll
| DeleteCompleted
| DeleteTag (tg : string)
| DeleteTagCompleted (tg : string)
| DeleteId (i : Z)
| InsertLog (tid : Z) (lg : LogChunk).

Definition exec (s : Stmt) (db : D1) : D1 :=
  match s with
  | InsertTask tg tk st => fst (insert_task tg tk st db)
  | UpdateStart i => fst (update_start i db)
  | UpdateTask i tg tk st => update_task i tg tk st db
  | DeleteAll => fst (delete_where (fun _ => True) db)
  | DeleteCompleted => fst (delete_where (fun r => status r = "done") db)
  | DeleteTag tg => fst (delete_where (fun r => tag r = tg) db)
  | DeleteTagCompleted tg =>
      fst (delete_where (fun r => tag r = tg /\ status r = "done") db)
  | DeleteId i => fst (delete_where (fun r => id r = i) db)
  | InsertLog tid lg => default db (insert_log tid lg db)
  end.

Definition exec_all (ss : list Stmt) (db : D1) : D1 :=
  foldl (fun d s => exec s d) db ss.

(** [ORDER BY id] on rows of [logs]. *)
Definition log_id_le (a b : LogRow) : Prop := log_id a <= log_id b.

#[global] Instance log_id_le_dec a b : Decision (log_id_le a b).
Proof. unfold log_id_le. apply _. Defined.

(** ** The store together with the runs of the agents *)

(** Each run is followed on its own.  A runner that ends on an error
    takes the intervals of its other children with it; leaving that out
    allows more sequences of events, not fewer. *)
Record System := mkSystem {
  store : D1;
  runs : list Run
}.

Inductive Event :=
| EvAdd (cfg : Config) (tg : option string) (cmd : list string) (net : Net)
| EvRunNext (cfg : Config) (h : Host) (tg : string) (net : Net)
| EvCapture (k : nat) (stream : string) (bytes : list ascii)
| EvHeartbeat (k : nat) (now : Z) (net : Net)
| EvFlush (k : nat) (now : Z) (net : Net)
| EvClose (k : nat) (code : option Z) (now : Z) (net_log net_task : Net)
| EvRequeue (i : Z) (net_get net_put : Net)
| EvWebRequeue (i : Z)
| EvRemove (i : Z) (net : Net)
| EvClean (h : Host) (tg : option string) (net : Net)
| EvReset (h : Host) (tg : option string) (net : Net).

(** An activity of run [k]; it only happens while the child is there. *)
Definition with_run (k : nat) (sys : System)
    (f : Run -> D1 -> Run * D1) : System :=
  match runs sys !! k with
  | Some r =>
      if intervals r then
        let '(r', db') := f r (store sys) in mkSystem db' (<[k := r']> (runs sys))
      else sys
  | None => sys
  end.

Definition step (ev : Event) (sys : System) : System :=
  match ev with
  | EvAdd cfg tg cmd net =>
      mkSystem (fst (add cfg net tg cmd (store sys))) (runs sys)
  | EvRunNext cfg h tg net =>
      match runNextTask cfg h net tg (store sys) with
      | (db', _, Started r) => mkSystem db' (runs sys ++ [r])
      | (db', _, _) => mkSystem db' (runs sys)
      end
  | EvCapture k stream bytes =>
      with_run k sys (fun r db => (capture stream bytes r, db))
  | EvHeartbeat k now net => with_run k sys (heartbeat now net)
  | EvFlush k now net =>
      with_run k sys (fun r db => fst (sendLogs now net r db))
  | EvClose k code now net_log net_task =>
      with_run k sys (fun r db => fst (on_close code now net_log net_task r db))
  | EvRequeue i net_get net_put =>
      mkSystem (fst (requeue net_get net_put i (store sys))) (runs sys)
  | EvWebRequeue i => mkSystem (fst (handleRequeue i (store sys))) (runs sys)
  | EvRemove i net => mkSystem (fst (remove net i (store sys))) (runs sys)
  | EvClean h tg net => mkSystem (fst (clean h net tg (store sys))) (runs sys)
  | EvReset h tg net => mkSystem (fst (reset h net tg (store sys))) (runs sys)
  end.

Definition steps (evs : list Event) (sys : System) : System :=
  foldl (fun s ev => step ev s) sys evs.

Definition initial : System := mkSystem empty_db [].

(** The heartbeats of one run, at the given clock readings. *)
Definition heartbeats (nows : list Z) (net : Net) (r : Run) (db : D1) : Run * D1 :=
  foldl (fun s now => heartbeat now net s.1 s.2) (r, db) nows.


(** ** Orders and predicates used in the statements *)

#[global] Instance id_le_trans : Transitive id_le.
Proof. intros a b c; unfold id_le; lia. Qed.

#[global] Instance id_le_total : Total id_le.
Proof. intros a b; unfold id_le; lia. Qed.

#[global] Instance log_id_le_trans : Transitive log_id_le.
Proof. intros a b c; unfold log_id_le; lia. Qed.

#[global] Instance log_id_le_total : Total log_id_le.
Proof. intros a b; unfold log_id_le; lia. Qed.

(** Strictly ascending ids, the rowid order of [logs]. *)
Definition log_id_lt (a b : LogRow) : Prop := log_id a < log_id b.

(** A row that the claim's UPDATE would change. *)
Definition pending_with_id (i : Z) (r : Task) : Prop :=
  id r = i /\ status r = "pending".


#[global] Instance pending_with_id_dec i r : Decision (pending_with_id i r).
Proof. unfold pending_with_id. apply _. Defined.

(** No stored row with id [i] is pending. *)
Definition none_pending (i : Z) (db : D1) : Prop :=
  Forall (fun r => ~ pending_with_id i r) (tasks db).

#[global] Instance none_pending_dec i db : Decision (none_pending i db).
Proof. unfold none_pending. apply _. Defined.

(** At most one caller has been answered with task [i], and once a caller
    has, no row with that id is pending. *)
Definition exclusive (i : Z) (s : D1 * list StartPc) : Prop :=
  (forall k1 k2 pc1 pc2,
      s.2 !! k1 = Some pc1 -> receives i pc1 ->
      s.2 !! k2 = Some pc2 -> receives i pc2 -> k1 = k2) /\
  (forall k pc, s.2 !! k = Some pc -> receives i pc -> none_pending i s.1).

(** The order the specification gives a cycle: every preparation command
    comes before the claim. *)
Definition prepares_before_claiming (acts : list Action) : Prop :=
  forall (i j : nat) cmd code tg,
    acts !! i = Some (PreTask cmd code) -> acts !! j = Some (Claim tg) ->
    (i < j)%nat.

(** The invariant the specification gives a task record: an exit code
    exactly when done, a heartbeat only while running. *)
Definition record_invariant (t : Task) : Prop :=
  (is_Some (exitCode (task t)) <-> status t = "done") /\
  (is_Some (lastHeartbeat (task t)) -> status t = "running").

(** A record has an exit code exactly when it is done, and the exit code
    is then 0. *)
Definition exit_code_iff_done (t : Task) : Prop :=
  (is_Some (exitCode (task t)) <-> status t = "done") /\
  (forall c, exitCode (task t) = Some c -> c = 0).

Definition rows_ok (db : D1) : Prop :=
  Forall exit_code_iff_done (tasks db).

(** While its child is there, a run holds no exit code, and the record it
    sends with a heartbeat is pending. *)
Definition run_inv (r : Run) : Prop :=
  intervals r = true ->
  exitCode (taskData r) = None /\ status (run_task r) = "pending".

Definition sys_inv (sys : System) : Prop :=
  rows_ok (store sys) /\ Forall run_inv (runs sys).


(** ** A way to the worker on which paths arrive as written *)

(** [s.split(sep)] for a separator of one character. *)
Fixpoint split_on (sep : ascii) (s : string) : list string :=
  match s with
  | EmptyString => [""]
  | String c rest =>
      if Ascii.eqb c sep then "" :: split_on sep rest
      else match split_on sep rest with
           | seg :: segs => String c seg :: segs
           | [] => [String c ""]
           end
  end.

(** The integer a segment of decimal digits reads as. *)
Definition read_digits (s : string) : option Z :=
  let digit (c : ascii) : option Z :=
    let n := Z.of_N (N_of_ascii c) in
    if decide (48 <= n <= 57) then Some (n - 48) else None in
  match s with
  | "" => None
  | _ => foldl (fun acc c => acc ≫= fun a => digit c ≫= fun d => Some (10 * a + d))
               (Some 0) (list_ascii_of_string s)
  end.

(** The segments of a path without the empty ones that slashes at its
    end leave. *)
Fixpoint strip_slashes (segs : list string) : list string :=
  match segs with
  | [] => []
  | seg :: rest =>
      match strip_slashes rest with
      | [] => if bool_decide (seg = "") then [] else [seg]
      | rest' => seg :: rest'
      end
  end.

(** A way to the worker on which a path arrives as the client wrote it:
    the segments between the slashes are compared with the patterns of
    the routes, first route first, and a parameter is the segment
    itself.  It is meant for tags that need no escaping in a URL. *)
Definition route_as_written (method path : string) : Route :=
  let by_method (m : string) : bool := bool_decide (method = m) in
  let fallback := if by_method "GET" then GET_any else no_route in
  match strip_slashes (split_on "/" path) with
  | [root; a] =>
      if negb (bool_decide (root = "")) then fallback
      else if bool_decide (a = "tags") && by_method "GET" then GET_tags
      else if bool_decide (a = "tasks") && by_method "GET" then GET_tasks
      else if bool_decide (a = "tasks") && by_method "POST" then POST_tasks
      else if bool_decide (a = "tasks") && by_method "DELETE" then DELETE_tasks
      else if bool_decide (a = "logs") && by_method "POST" then POST_logs
      else fallback
  | [root; a; b] =>
      if negb (bool_decide (root = "")) || bool_decide (b = "") then fallback
      else if bool_decide (a = "tasks") && bool_decide (b = "completed")
              && by_method "DELETE" then DELETE_tasks_completed
      else if bool_decide (a = "tasks") && by_method "GET" then GET_tasks_id (read_digits b)
      else if bool_decide (a = "tasks") && by_method "PUT" then PUT_tasks_id (read_digits b)
      else if bool_decide (a = "tasks") && by_method "DELETE"
           then DELETE_tasks_id (read_digits b)
      else if bool_decide (a = "logs") && by_method "GET" then GET_logs (read_digits b)
      else fallback
  | [root; a; b; c] =>
      if negb (bool_decide (root = "")) || bool_decide (c = "") then fallback
      else if bool_decide (a = "tasks") && bool_decide (b = "tag") && by_method "GET"
           then GET_tasks_tag c
      else if bool_decide (a = "tasks") && bool_decide (b = "tag") && by_method "DELETE"
           then DELETE_tasks_tag c
      else if bool_decide (a = "tasks") && bool_decide (b = "start") && by_method "POST"
           then POST_tasks_start c
      else fallback
  | [root; a; b; c; d] =>
      if negb (bool_decide (root = "")) || bool_decide (c = "") then fallback
      else if bool_decide (a = "tasks") && bool_decide (b = "tag")
              && bool_decide (d = "completed") && by_method "DELETE"
           then DELETE_tasks_tag_completed c
      else fallback
  | _ => fallback
  end.

(** ** Sample stores, hosts and configurations *)

Definition echo_hi : TaskData := mkTaskData ["echo"; "hi"] None None.
Definition echo_ho : TaskData := mkTaskData ["echo"; "ho"] None None.

(** One pending task with tag [t1]. *)
Definition one_pending : D1 :=
  mkD1 [mkTask 1 "t1" echo_hi "pending"] 1 [].

(** Two pending tasks with tag [t1] after a finished one. *)
Definition two_pending : D1 :=
  mkD1 [mkTask 1 "t1" echo_hi "done";
        mkTask 2 "t1" echo_hi "pending";
        mkTask 3 "t1" echo_ho "pending"] 3 [].

Definition plain_config : Config :=
  mkConfig "https://worker.example" None (Some "t1").

Definition prepared_config : Config :=
  mkConfig "https://worker.example" (Some [inl "git pull"]) (Some "t1").

(** A host where every command exits with 0. *)
Definition online_host : Host :=
  mkHost (fun s => [s]) (fun _ => 0) route_as_written.

(** A host where [git pull] exits with 1 and every other command with 0. *)
Definition offline_host : Host :=
  mkHost (fun s => [s])
         (fun cmd => if decide (cmd = ["git pull"]) then 1 else 0)
         route_as_written.

(** A host whose URL parser escapes the space of the tag [a b], as the
    parser of [fetch] does. *)
Definition escaping_host : Host :=
  mkHost (fun s => [s]) (fun _ => 0)
         (fun method path =>
            if bool_decide (path = "/tasks/start/a b")
            then route_as_written method "/tasks/start/a%20b"
            else route_as_written method path).

(** A configuration with three preparation commands, the second of which
    is [git pull]. *)
Definition three_step_config : Config :=
  mkConfig "https://worker.example"
    (Some [inr ["npm"; "ci"]; inl "git pull"; inl "make"]) (Some "t1").

(** Two stored chunks: [hi] on stdout, then [ho] on stderr and a line
    feed on stdout. *)
Definition two_chunks : list LogChunk :=
  [mkLogChunk 10000 [mkLogEntry "stdout" "aGk="];
   mkLogChunk 20000 [mkLogEntry "stderr" "aG8="; mkLogEntry "stdout" "Cg=="]].

(** [one_pending] after its task was claimed. *)
Definition one_running : D1 :=
  mkD1 [mkTask 1 "t1" echo_hi "running"] 1 [].

(** A run of task 1 with one captured entry in its buffer. *)
Definition run_with_output : Run :=
  mkRun (mkTask 1 "t1" echo_hi "pending") echo_hi
        [mkLogEntry "stdout" "aGk="] true.

(** Task 1 finished with exit code 0 after a heartbeat at 30000. *)
Definition one_done : D1 :=
  mkD1 [mkTask 1 "t1" (mkTaskData ["echo"; "hi"] (Some 0) (Some 30000)) "done"]
       1 [mkLogRow 1 1 (mkLogChunk 31000 [mkLogEntry "stdout" "aGk="])].

(** A task is added, claimed and run; the run captures output, sends one
    heartbeat and ends with exit code 0. *)
Definition one_full_run : list Event :=
  [EvAdd plain_config None ["echo"; "hi"] delivered;
   EvRunNext plain_config offline_host "t1" delivered;
   EvCapture 0 "stdout" ["h"; "i"]%char;
   EvHeartbeat 0 30000 delivered;
   EvClose 0 (Some 0) 31000 delivered delivered].

(** * More of the worker, the client and the commands *)

(** Arithmetic on [N] and [Z] with divisions by constants. *)
Ltac n_arith :=
  zify; Z.to_euclidean_division_equations; lia.

(** ** A child's output, from capture to replay *)

(** What happens to a run while its child is there: the child writes a
    chunk on one of its streams, or the log interval fires. *)
Inductive Activity :=
| Output (stream : string) (bytes : list ascii)
| Tick (now : Z) (net : Net).

Definition act (a : Activity) (s : Run * D1) : Run * D1 :=
  match a with
  | Output stream bytes => (capture stream bytes s.1, s.2)
  | Tick now net => (sendLogs now net s.1 s.2).1
  end.

Definition act_all (acts : list Activity) (s : Run * D1) : Run * D1 :=
  foldl (fun s a => act a s) s acts.

(** The bytes the child wrote, in the order it wrote them. *)
Fixpoint output_of (acts : list Activity) : list ascii :=
  match acts with
  | [] => []
  | Output _ bytes :: rest => bytes ++ output_of rest
  | Tick _ _ :: rest => output_of rest
  end.

Definition tick_delivered (a : Activity) : Prop :=
  match a with
  | Output _ _ => True
  | Tick _ net => net = delivered
  end.

(** The replay of everything stored for task [i], on a fresh terminal. *)
Definition replay_all (i : Z) (db : D1) : list ascii * bool :=
  let stored := map log (select_logs i db) in
  replayLogs stored (Z.of_nat (length stored)) [].

(** The stored chunks of a task and the buffer of its run hold, decoded
    and in order, what [shown] says. *)
Definition holds (i : Z) (shown : list ascii) (s : Run * D1) : Prop :=
  snd (replay_all i s.2) = true /\
  write_entries (run_logs s.1) (fst (replay_all i s.2)) = (shown, true).

(** ** Basic authentication (worker/index.ts and the client's constructor) *)

(** [TextEncoder.encode] and [Buffer.from(string)]: the UTF-8 bytes of a
    string.  A character of a [string] is a code unit below 256, so it
    takes one byte or two. *)
Definition utf8_char (c : ascii) : list ascii :=
  let n := N_of_ascii c in
  if (n <? 128)%N then [c]
  else [ascii_of_N (192 + n / 64); ascii_of_N (128 + n mod 64)].

Definition utf8 (s : string) : list ascii :=
  flat_map utf8_char (list_ascii_of_string s).

(** [timingSafeEqual]; the first argument is [undefined] when the
    credentials have no second part, and is then encoded as no bytes. *)
Definition timingSafeEqual (a : option string) (b : string) : bool :=
  let aBytes := from_option utf8 [] a in
  let bBytes := utf8 b in
  if decide (length aBytes <> length bBytes) then false
  else bool_decide (aBytes = bBytes).

(** [basicAuth]; [None] when [atob] throws. *)
Definition basicAuth (authHeader : option string) (BASIC_PASS : string)
  : option bool :=
  match authHeader with
  | None => Some false
  | Some header =>
      if negb (String.prefix "Basic " header) then Some false
      else
        let base64Credentials := default "" (split_on " " header !! 1%nat) in
        match Base64.atob base64Credentials with
        | None => None
        | Some bytes =>
            let credentials := split_on ":" (string_of_list_ascii bytes) in
            let password := credentials !! 1%nat in
            Some (timingSafeEqual password BASIC_PASS)
        end
  end.

(** The [authHeader] the constructor of [WorkerClient] builds. *)
Definition authHeader (username password : string) : string :=
  "Basic " +:+ Base64.encode (utf8 (username +:+ ":" +:+ password)).

(** [fetch] of the worker: the protocol of the URL, the Authorization
    header, and what the router does with the request.  [None] when
    [basicAuth] throws. *)
Definition worker_fetch (BASIC_PASS : string) (protocol : string)
    (authorization : option string) (router : D1 -> D1 * Response) (db : D1)
  : D1 * option Response :=
  if negb (String.eqb protocol "https:") then
    (db, Some (mkResponse 400 (Text "Please use HTTPS")))
  else
    match basicAuth authorization BASIC_PASS with
    | None => (db, None)
    | Some false => (db, Some (mkResponse 401 (Text "Unauthorized")))
    | Some true => let '(db', res) := router db in (db', Some res)
    end.

(** Every character is below 128. *)
Definition is_ascii (s : string) : Prop :=
  Forall (fun c => (N_of_ascii c < 128)%N) (list_ascii_of_string s).

(** The part of a string before its first colon. *)
Definition before_colon (s : string) : string :=
  default "" (head (split_on ":" s)).

(** ** What the schema keeps true of the two tables *)

Definition task_id_lt (a b : Task) : Prop := id a < id b.

(** Task ids ascend strictly and none is above the AUTOINCREMENT
    sequence; log ids ascend strictly and every log belongs to a stored
    task. *)
Definition consistent (db : D1) : Prop :=
  StronglySorted task_id_lt (tasks db) /\
  Forall (fun r => id r <= tasks_seq db) (tasks db) /\
  StronglySorted log_id_lt (logs db) /\
  Forall (fun l => task_id l ∈ map id (tasks db)) (logs db).

(** The tasks a DELETE of the completed tasks removes: the done ones,
    with the tag [tg] if the handler was given one. *)
Definition cleaned (tg : option string) (r : Task) : Prop :=
  match tg with
  | Some t => tag r = t /\ status r = "done"
  | None => status r = "done"
  end.

#[global] Instance cleaned_dec tg r : Decision (cleaned tg r).
Proof. unfold cleaned. destruct tg; apply _. Defined.

(** The rows of [logs] that go with the tasks a DELETE removes. *)
Definition cascaded (P : Task -> Prop) `{!forall r, Decision (P r)} (db : D1)
  : list LogRow :=
  filter (fun l => task_id l ∈ map id (filter P (tasks db))) (logs db).

(** ** The [list] command *)

Definition STALE_THRESHOLD_MS : Z := 60000.

(** What [list] prints for one task: the colour, the header line and the
    command line. *)
Record Listed := mkListed {
  listed_color : string;
  listed_header : string;
  listed_command : string
}.

(** [taskData.exitCode ? ... : ''], where 0 and [null] are falsy. *)
Definition exit_suffix (code : option Z) : string :=
  match code with
  | Some c => if decide (c = 0) then "" else " with exit code " +:+ pretty c
  | None => ""
  end.

(** The body of [tasks.forEach] in [list], for a task whose status is
    one the worker stores; [now] is [Date.now()]. *)
Definition list_task (now : Z) (t : Task) : Listed :=
  let taskData := task t in
  let exit := exit_suffix (exitCode taskData) in
  let isStale :=
    match lastHeartbeat taskData with
    | Some beat => bool_decide (now - beat > STALE_THRESHOLD_MS)
    | None => false
    end in
  let st := if isStale then "stale" else status t in
  let color :=
    if decide (st = "done") then "green"
    else if decide (st = "running") then "blue"
    else if decide (st = "stale") then "yellow"
    else "gray" in
  mkListed color
    ("#" +:+ pretty (id t) +:+ " [" +:+ tag t +:+ ", " +:+ st +:+ exit +:+ "]")
    ("> " +:+ String.concat " " (command taskData)).

(** [list], with or without [--tag]. *)
Definition list_tasks (h : Host) (now : Z) (net : Net) (tg : option string)
    (db : D1) : Outcome (list Listed) :=
  let fetched :=
    match truthy tg with
    | Some t => snd (getTasksByTag h net t db)
    | None => snd (getTasks net db)
    end in
  match fetched with
  | Ok ts => Ok (map (list_task now) ts)
  | Throw e => Throw e
  end.
(** * Properties *)

(** ** Sorting by id *)

Lemma order_by_id_elem_of (rows : list Task) (r : Task) :
  r ∈ order_by_id rows <-> r ∈ rows.
Proof. unfold order_by_id. by rewrite merge_sort_Permutation. Qed.

Lemma order_by_id_head_least (rows : list Task) (t r : Task) :
  head (order_by_id rows) = Some t -> r ∈ rows -> id t <= id r.
Proof.
  intros Hhd Hr. apply order_by_id_elem_of in Hr.
  pose proof (StronglySorted_merge_sort id_le rows) as Hs.
  unfold order_by_id in *.
  destruct (merge_sort id_le rows) as [|x l]; [done|].
  simpl in Hhd. injection Hhd as ->.
  apply StronglySorted_cons in Hs as [Hall _].
  apply elem_of_cons in Hr as [->|Hr]; [lia|].
  rewrite Forall_forall in Hall. by apply Hall.
Qed.

Lemma order_by_id_head_is_Some (rows : list Task) (r : Task) :
  r ∈ rows -> is_Some (head (order_by_id rows)).
Proof.
  intros Hr. apply order_by_id_elem_of in Hr.
  destruct (order_by_id rows); [by apply elem_of_nil in Hr | by eexists].
Qed.

(** ** The claim's SELECT *)

Lemma select_next_pending_Some (tg : string) (db : D1) (t : Task) :
  select_next_pending tg db = Some t ->
  t ∈ tasks db /\ tag t = tg /\ status t = "pending".
Proof.
  unfold select_next_pending. intros Hhd.
  apply head_Some_elem_of in Hhd.
  apply order_by_id_elem_of, list_elem_of_filter in Hhd. tauto.
Qed.

Lemma select_next_pending_least (tg : string) (db : D1) (t r : Task) :
  select_next_pending tg db = Some t ->
  r ∈ tasks db -> tag r = tg -> status r = "pending" -> id t <= id r.
Proof.
  unfold select_next_pending. intros Hhd Hr Htag Hst.
  eapply order_by_id_head_least; [done|].
  apply list_elem_of_filter. tauto.
Qed.

Lemma select_next_pending_is_Some (tg : string) (db : D1) (r : Task) :
  r ∈ tasks db -> tag r = tg -> status r = "pending" ->
  is_Some (select_next_pending tg db).
Proof.
  intros Hr Htag Hst. unfold select_next_pending.
  apply (order_by_id_head_is_Some _ r), list_elem_of_filter. tauto.
Qed.

(** ** The claim's UPDATE *)

Lemma update_start_changed (i : Z) (db : D1) :
  snd (update_start i db) = true <-> Exists (pending_with_id i) (tasks db).
Proof. unfold update_start, pending_with_id. simpl. apply bool_decide_eq_true. Qed.

Lemma update_start_unchanged (i : Z) (db : D1) :
  snd (update_start i db) = false -> fst (update_start i db) = db.
Proof.
  unfold update_start. simpl. intros Hnone.
  apply bool_decide_eq_false in Hnone. rewrite <- Forall_Exists_neg in Hnone.
  destruct db as [ts sq ls]. simpl in *. f_equal.
  induction ts as [|r ts IH]; [done|].
  apply Forall_cons in Hnone as [Hr Hts]. simpl.
  rewrite decide_False by done. f_equal. by apply IH.
Qed.

Lemma update_start_no_pending (i : Z) (db : D1) :
  none_pending i (fst (update_start i db)).
Proof.
  unfold none_pending, update_start, pending_with_id. simpl.
  apply Forall_forall. intros r Hr.
  apply list_elem_of_fmap in Hr as (r0 & -> & _).
  case_decide as Hd; simpl; [intros [_ ?]; done | done].
Qed.

Lemma update_start_keeps_no_pending (i j : Z) (db : D1) :
  none_pending i db -> none_pending i (fst (update_start j db)).
Proof.
  unfold none_pending, update_start, pending_with_id. simpl. intros Hall.
  apply Forall_forall. intros r Hr.
  apply list_elem_of_fmap in Hr as (r0 & -> & Hr0).
  rewrite Forall_forall in Hall. specialize (Hall r0 Hr0).
  case_decide as Hd; simpl; [intros [_ ?]; done | done].
Qed.

Lemma update_start_running (i : Z) (db : D1) (t : Task) :
  t ∈ tasks db -> id t = i -> status t = "pending" ->
  mkTask (id t) (tag t) (task t) "running" ∈ tasks (fst (update_start i db)).
Proof.
  intros Ht Hid Hst. unfold update_start. simpl.
  apply list_elem_of_fmap. exists t. split; [|done].
  by rewrite decide_True.
Qed.

(** The two statements of the handler, issued back to back, are the
    handler. *)
Lemma start_step_twice (tg : string) (db : D1) :
  let '(db1, pc1) := start_step (AtSelect tg) db in
  let '(db2, pc2) := start_step pc1 db1 in
  (db2, pc2) = (fst (post_tasks_start tg db), Answered (snd (post_tasks_start tg db))).
Proof.
  unfold post_tasks_start. simpl.
  destruct (select_next_pending tg db) as [t|]; [|done].
  simpl. destruct (bool_decide _); done.
Qed.

(** ** First in, first out *)

(** A claim served without another request in between answers 200 with
    what its SELECT found. *)
Lemma post_tasks_start_answer (tg : string) (db : D1) :
  post_tasks_start tg db =
    (match select_next_pending tg db with
     | Some t => (update_start (id t) db).1
     | None => db
     end,
     mkResponse 200 (json_first (select_next_pending tg db))).
Proof.
  unfold post_tasks_start.
  destruct (select_next_pending tg db) as [t|] eqn:Hsel; [|done].
  destruct (select_next_pending_Some _ _ _ Hsel) as (Hin & _ & Hst).
  assert (snd (update_start (id t) db) = true) as Hch.
  { apply update_start_changed, Exists_exists. by exists t. }
  destruct (update_start (id t) db) as [db' ch]. simpl in Hch. by subst ch.
Qed.

(** What the client makes of a claim that reached the handler with the
    tag [tg']. *)
Lemma startNextTask_routed (h : Host) (tg tg' : string) (db : D1) :
  route_of h "POST" ("/tasks/start/" +:+ tg) = POST_tasks_start tg' ->
  startNextTask h delivered tg db =
    (match select_next_pending tg' db with
     | Some t => (update_start (id t) db).1
     | None => db
     end,
     Ok (select_next_pending tg' db)).
Proof.
  intros Hroute. unfold startNextTask, request. rewrite Hroute.
  cbn [router_fetch]. rewrite post_tasks_start_answer.
  by destruct (select_next_pending tg' db).
Qed.

(** C10. Whenever a pending task with the tag exists, the claim selects
    the pending task of that tag with the lowest id and the handler
    answers with it; so does the client, whenever its request reaches
    the handler with this tag.  No pending task of the tag has a lower
    id than the one returned. *)
Theorem claim_fifo (tg : string) (db : D1) (r : Task) :
  r ∈ tasks db -> tag r = tg -> status r = "pending" ->
  exists t,
    select_next_pending tg db = Some t /\
    snd (post_tasks_start tg db) = mkResponse 200 (JTask t) /\
    (forall h tg0,
       route_of h "POST" ("/tasks/start/" +:+ tg0) = POST_tasks_start tg ->
       snd (startNextTask h delivered tg0 db) = Ok (Some t)) /\
    t ∈ tasks db /\ tag t = tg /\ status t = "pending" /\
    forall r', r' ∈ tasks db -> tag r' = tg -> status r' = "pending" ->
               id t <= id r'.
Proof.
  intros Hr Htag Hst.
  destruct (select_next_pending_is_Some tg db r Hr Htag Hst) as [t Ht].
  destruct (select_next_pending_Some _ _ _ Ht) as (Hin & Htg & Hpend).
  exists t. repeat split; try done.
  - by rewrite post_tasks_start_answer, Ht.
  - intros h tg0 Hroute. by rewrite (startNextTask_routed h tg0 tg), Ht.
  - intros r' Hr' Htag' Hst'. by eapply select_next_pending_least.
Qed.

Lemma claim_fifo_witness :
  exists t,
    select_next_pending "t1" two_pending = Some t /\
    snd (post_tasks_start "t1" two_pending) = mkResponse 200 (JTask t) /\
    (forall h tg0,
       route_of h "POST" ("/tasks/start/" +:+ tg0) = POST_tasks_start "t1" ->
       snd (startNextTask h delivered tg0 two_pending) = Ok (Some t)) /\
    t ∈ tasks two_pending /\ tag t = "t1" /\ status t = "pending" /\
    forall r', r' ∈ tasks two_pending -> tag r' = "t1" ->
               status r' = "pending" -> id t <= id r'.
Proof.
  apply (claim_fifo "t1" two_pending (mkTask 3 "t1" echo_ho "pending")).
  - apply (bool_decide_unpack _). vm_compute. reflexivity.
  - reflexivity.
  - reflexivity.
Defined.

(** The claim of the witness, sent from a host on which the path arrives
    as written: the client gets task 2, the older of the two pending
    tasks. *)
Example oldest_task_for_client :
  snd (startNextTask online_host delivered "t1" two_pending) =
    Ok (Some (mkTask 2 "t1" echo_hi "pending")).
Proof. reflexivity. Qed.

(** ** The order of the rows of [logs] *)

Lemma max_log_id_ge (rows : list LogRow) (r : LogRow) :
  r ∈ rows -> log_id r <= max_log_id rows.
Proof.
  induction rows as [|x rows IH]; intros Hr; [by apply elem_of_nil in Hr|].
  apply elem_of_cons in Hr as [->|Hr]; simpl; [lia|].
  specialize (IH Hr). lia.
Qed.

Lemma StronglySorted_filter_keep {A} (R : relation A) (P : A -> Prop)
    `{!forall x, Decision (P x)} (l : list A) :
  StronglySorted R l -> StronglySorted R (filter P l).
Proof.
  induction 1 as [|x l Hl IH Hx]; [constructor|].
  rewrite filter_cons. case_decide; [|done].
  constructor; [done|].
  rewrite Forall_forall in Hx |- *. intros y Hy.
  apply list_elem_of_filter in Hy as [_ Hy]. by apply Hx.
Qed.


Lemma insert_log_sorted (tid : Z) (lg : LogChunk) (db db' : D1) :
  StronglySorted log_id_lt (logs db) ->
  insert_log tid lg db = Some db' ->
  StronglySorted log_id_lt (logs db').
Proof.
  unfold insert_log. intros Hs Hins. case_decide; [|done].
  injection Hins as <-. simpl.
  apply StronglySorted_app_2; [|done|repeat constructor].
  intros x1 x2 Hx1 Hx2. apply list_elem_of_singleton in Hx2 as ->.
  unfold log_id_lt. simpl. pose proof (max_log_id_ge _ _ Hx1). lia.
Qed.

Lemma insert_log_Some (tid : Z) (lg : LogChunk) (db db' : D1) :
  insert_log tid lg db = Some db' ->
  tasks db' = tasks db /\
  logs db' = (logs db ++ [mkLogRow (max_log_id (logs db) + 1) tid lg])%list.
Proof. unfold insert_log. case_decide; [|done]. by intros [= <-]. Qed.


Lemma delete_where_sorted (P : Task -> Prop) `{!forall r, Decision (P r)}
    (db : D1) :
  StronglySorted log_id_lt (logs db) ->
  StronglySorted log_id_lt (logs (fst (delete_where P db))).
Proof. intros Hs. simpl. by apply StronglySorted_filter_keep. Qed.





(** Two tasks, chunks appended in turns: each task's chunks come back in
    the order they were appended. *)
Example logs_fetched_example :
  let db := exec_all [InsertTask "t1" echo_hi "pending";
                      InsertTask "t1" echo_ho "pending";
                      InsertLog 2 (mkLogChunk 10000 []);
                      InsertLog 1 (mkLogChunk 20000 []);
                      InsertLog 2 (mkLogChunk 30000 [])] empty_db in
  snd (getLogs delivered 2 db) = Ok [mkLogChunk 10000 []; mkLogChunk 30000 []] /\
  snd (getLogs delivered 1 db) = Ok [mkLogChunk 20000 []].
Proof. split; reflexivity. Qed.

(** ** Log replay *)

Lemma write_entries_extends (es : list LogEntry) (terminal : list ascii) :
  terminal `prefix_of` fst (write_entries es terminal).
Proof.
  revert terminal. induction es as [|e es IH]; intros terminal; simpl; [done|].
  destruct (decodeBase64 (data e)) as [bytes|]; simpl; [|done].
  etrans; [|apply IH]. by apply prefix_app_r.
Qed.

Lemma write_logs_extends (ls : list LogChunk) (terminal : list ascii) :
  terminal `prefix_of` fst (write_logs ls terminal).
Proof.
  revert terminal. induction ls as [|l ls IH]; intros terminal; simpl; [done|].
  pose proof (write_entries_extends (entries l) terminal) as He.
  destruct (write_entries (entries l) terminal) as [terminal' [|]]; simpl in *.
  - etrans; [done|apply IH].
  - done.
Qed.

Lemma write_logs_app (l1 l2 : list LogChunk) (terminal : list ascii) :
  write_logs (l1 ++ l2) terminal =
    if snd (write_logs l1 terminal)
    then write_logs l2 (fst (write_logs l1 terminal))
    else write_logs l1 terminal.
Proof.
  revert terminal. induction l1 as [|l l1 IH]; intros terminal; simpl; [done|].
  destruct (write_entries (entries l) terminal) as [terminal' [|]]; simpl.
  - apply IH.
  - done.
Qed.

Lemma slice0_succ {A} (l : list A) (k : Z) :
  0 <= k < Z.of_nat (length l) ->
  exists x, l !! Z.to_nat k = Some x /\ slice0 (k + 1) l = (slice0 k l ++ [x])%list.
Proof.
  intros Hk. unfold slice0. rewrite !decide_False by lia.
  destruct (lookup_lt_is_Some_2 l (Z.to_nat k)) as [x Hx]; [lia|].
  exists x. split; [done|].
  replace (Z.to_nat (k + 1)) with (S (Z.to_nat k)) by lia.
  by apply take_S_r.
Qed.

(** C8. For every position [k] with [0 <= k < N], what the replay at [k]
    writes to the terminal is a prefix of what the replay at [k + 1]
    writes, and a replay at [k] writes the same bytes whatever the
    terminal showed before. *)
Theorem replay_prefix_law (stored : list LogChunk) (k : Z)
    (before before' : list ascii) :
  0 <= k < Z.of_nat (length stored) ->
  fst (replayLogs stored k before)
    `prefix_of` fst (replayLogs stored (k + 1) before') /\
  replayLogs stored k before = replayLogs stored k before'.
Proof.
  intros Hk. split; [|done].
  destruct (slice0_succ stored k Hk) as (x & _ & Hsl).
  unfold replayLogs, terminal_reset. rewrite Hsl, write_logs_app.
  destruct (write_logs (slice0 k stored) []) as [shown [|]]; cbn [fst snd];
    [|done].
  apply write_logs_extends.
Qed.

Lemma replay_prefix_law_witness :
  fst (replayLogs two_chunks 1 [])
    `prefix_of` fst (replayLogs two_chunks (1 + 1) ["x"%char]) /\
  replayLogs two_chunks 1 [] = replayLogs two_chunks 1 ["x"%char].
Proof. apply (replay_prefix_law two_chunks 1); simpl; lia. Defined.

(** The replay of [two_chunks] at its full length. *)
Example replay_two_chunks :
  replayLogs two_chunks 2 [] =
    (["h"; "i"; "h"; "o"; "010"]%char, true).
Proof. reflexivity. Qed.

(** ** Racing claims *)

Lemma none_pending_not_Exists (i : Z) (db : D1) :
  none_pending i db <-> ~ Exists (pending_with_id i) (tasks db).
Proof. unfold none_pending. by rewrite Forall_Exists_neg. Qed.

Lemma update_start_none_pending (i : Z) (db : D1) :
  none_pending i db -> update_start i db = (db, false).
Proof.
  intros Hnone. apply none_pending_not_Exists in Hnone.
  assert (snd (update_start i db) = false) as Hch.
  { destruct (snd (update_start i db)) eqn:E; [|done].
    by apply update_start_changed in E. }
  pose proof (update_start_unchanged i db Hch) as Hdb.
  destruct (update_start i db) as [db' ch]. simpl in *. by subst.
Qed.

(** A statement of a claim handler never makes a row pending. *)
Lemma start_step_keeps_none_pending (i : Z) (pc : StartPc) (db : D1) :
  none_pending i db -> none_pending i (start_step pc db).1.
Proof.
  intros Hnone. destruct pc as [tg|[t|]|res]; cbn [start_step fst]; try done.
  pose proof (update_start_keeps_no_pending i (id t) db Hnone) as Hk.
  destruct (update_start (id t) db) as [db' [|]]; done.
Qed.

(** A handler that now answers with task [i] either had answered so
    before, or its UPDATE has just changed a pending row with id [i]. *)
Lemma start_step_receives (i : Z) (pc : StartPc) (db : D1) :
  receives i (start_step pc db).2 ->
  (receives i pc /\ start_step pc db = (db, pc)) \/
  (Exists (pending_with_id i) (tasks db) /\ none_pending i (start_step pc db).1).
Proof.
  destruct pc as [tg|[t|]|res]; cbn [start_step fst snd].
  - intros (t & Heq & _). done.
  - pose proof (update_start_changed (id t) db) as Hch.
    pose proof (update_start_no_pending (id t) db) as Hno.
    destruct (update_start (id t) db) as [db' [|]]; cbn [fst snd] in *.
    + intros (t' & Heq & Hid). injection Heq as ->. subst i.
      right. split; [by apply Hch | done].
    + intros (t' & Heq & _). done.
  - intros (t' & Heq & _). done.
  - intros Hrec. by left.
Qed.

Lemma turn_exclusive (i : Z) (k : nat) (s : D1 * list StartPc) :
  exclusive i s -> exclusive i (turn k s).
Proof.
  destruct s as [db pcs]. intros [Hone Hgone]. unfold turn. simpl in *.
  destruct (pcs !! k) as [pc|] eqn:Hk; [|by split].
  pose proof (start_step_receives i pc db) as Hrec.
  pose proof (start_step_keeps_none_pending i pc db) as Hkeep.
  destruct (start_step pc db) as [db' pc']. simpl in *.
  assert (k < length pcs)%nat as Hlen by (by eapply lookup_lt_Some).
  assert (forall k0 pc0, <[k:=pc']> pcs !! k0 = Some pc0 -> receives i pc0 ->
            none_pending i db /\ (k0 = k \/ pcs !! k0 = Some pc0) \/
            (k0 = k /\ Exists (pending_with_id i) (tasks db) /\ none_pending i db'))
    as Hcase.
  { intros k0 pc0 Hk0 Hr0. destruct (decide (k0 = k)) as [->|Hne].
    - rewrite list_lookup_insert_eq in Hk0 by done. injection Hk0 as <-.
      destruct (Hrec Hr0) as [[Hr _]|[Hex Hno]].
      + left. split; [by eapply Hgone | by left].
      + right. done.
    - rewrite list_lookup_insert_ne in Hk0 by done.
      left. split; [by eapply Hgone | by right]. }
  split.
  - intros k1 k2 pc1 pc2 H1 Hr1 H2 Hr2. simpl in H1, H2.
    destruct (decide (k1 = k)) as [->|Hne1]; destruct (decide (k2 = k)) as [->|Hne2];
      try done.
    + rewrite list_lookup_insert_ne in H2 by done.
      rewrite list_lookup_insert_eq in H1 by done. injection H1 as <-.
      destruct (Hrec Hr1) as [[Hr _]|[Hex _]].
      * by eapply Hone.
      * exfalso. by eapply none_pending_not_Exists; [eapply Hgone|].
    + rewrite list_lookup_insert_ne in H1 by done.
      rewrite list_lookup_insert_eq in H2 by done. injection H2 as <-.
      destruct (Hrec Hr2) as [[Hr _]|[Hex _]].
      * by eapply Hone.
      * exfalso. by eapply none_pending_not_Exists; [eapply Hgone|].
    + rewrite list_lookup_insert_ne in H1, H2 by done. by eapply Hone.
  - intros k0 pc0 Hk0 Hr0. simpl in *.
    destruct (Hcase k0 pc0 Hk0 Hr0) as [[Hno _]|(_ & _ & Hno)]; [|done].
    by apply Hkeep.
Qed.

Lemma race_exclusive (i : Z) (tags : list string) (schedule : list nat)
    (db : D1) :
  exclusive i (race tags schedule db).
Proof.
  unfold race.
  assert (exclusive i (db, map AtSelect tags)) as Hinit.
  { assert (forall k pc, map AtSelect tags !! k = Some pc -> ~ receives i pc)
      as Hnone.
    { intros k pc Hk (t & -> & _).
      apply list_lookup_fmap_Some in Hk as (tg & Heq & _). discriminate. }
    split; simpl.
    - intros k1 k2 pc1 pc2 H1 Hr1. by apply Hnone in H1.
    - intros k pc Hk Hr. by apply Hnone in Hk. }
  revert Hinit. generalize (db, map AtSelect tags).
  induction schedule as [|k schedule IH]; intros s Hs; simpl; [done|].
  apply IH. by apply turn_exclusive.
Qed.

(** C1. Whatever the number of concurrent claims and however the
    statements of their handlers interleave, at most one caller is
    answered with a given task; once a caller has been, no row with that
    id is pending and the claim's conditional UPDATE for it changes
    nothing.  In general the UPDATE leaves a store unchanged, and reports
    so, when no row with the id is pending. *)
Theorem claim_exclusive (tags : list string) (schedule : list nat) (db : D1)
    (k1 k2 : nat) (t1 t2 : Task) :
  let final := race tags schedule db in
  final.2 !! k1 = Some (Answered (mkResponse 200 (JTask t1))) ->
  final.2 !! k2 = Some (Answered (mkResponse 200 (JTask t2))) ->
  id t1 = id t2 ->
  k1 = k2 /\
  update_start (id t1) final.1 = (final.1, false) /\
  (forall db' i, none_pending i db' -> update_start i db' = (db', false)).
Proof.
  intros final H1 H2 Hid.
  destruct (race_exclusive (id t1) tags schedule db) as [Hone Hgone].
  fold final in Hone, Hgone.
  assert (receives (id t1) (Answered (mkResponse 200 (JTask t1)))) as Hr1
    by (by exists t1).
  assert (receives (id t1) (Answered (mkResponse 200 (JTask t2)))) as Hr2
    by (by exists t2).
  split; [by eapply Hone|].
  split; [|intros db' i; apply update_start_none_pending].
  apply update_start_none_pending. by eapply Hgone.
Qed.

Lemma claim_exclusive_witness :
  let final := race ["t1"; "t1"] [0; 1; 0; 1]%nat one_pending in
  final.2 !! 0%nat = Some (Answered (mkResponse 200 (JTask (mkTask 1 "t1" echo_hi "pending")))) /\
  (0%nat = 0%nat /\
   update_start 1 final.1 = (final.1, false) /\
   (forall db' i, none_pending i db' -> update_start i db' = (db', false))).
Proof.
  split; [reflexivity|].
  apply (claim_exclusive ["t1"; "t1"] [0; 1; 0; 1]%nat one_pending 0 0
           (mkTask 1 "t1" echo_hi "pending") (mkTask 1 "t1" echo_hi "pending"));
    reflexivity.
Defined.

(** Two callers claim tag [t1] while one task is pending, and both SELECTs
    come before the UPDATEs: the second caller is answered 409, which its
    client throws as a [ResponseError]; that is not the [null] of an
    empty queue. *)
Lemma lost_race_is_an_error :
  let final := race ["t1"; "t1"] [0; 1; 0; 1]%nat one_pending in
  map claim_result final.2 =
    [Some (Ok (Some (mkTask 1 "t1" echo_hi "pending")));
     Some (Throw (ResponseError "Request failed with status 409" 409))] /\
  final.2 !! 1%nat ≫= claim_result <> Some (Ok None) /\
  snd (startNextTask online_host delivered "t1" empty_db) = Ok None.
Proof.
  split; [reflexivity|]. split; [|reflexivity].
  vm_compute. discriminate.
Qed.

Lemma select_next_pending_None_iff (tg : string) (db : D1) :
  select_next_pending tg db = None <->
  Forall (fun r => ~ (tag r = tg /\ status r = "pending")) (tasks db).
Proof.
  split.
  - intros Hnone. apply Forall_forall. intros r Hr [Htag Hst].
    destruct (select_next_pending_is_Some tg db r Hr Htag Hst) as [t Ht].
    congruence.
  - intros Hnone. destruct (select_next_pending tg db) as [t|] eqn:Hsel; [|done].
    destruct (select_next_pending_Some _ _ _ Hsel) as (Hin & Htag & Hst).
    rewrite Forall_forall in Hnone. by destruct (Hnone t Hin).
Qed.

(** The UPDATE of a claim whose row is still pending. *)
Lemma start_step_wins (t : Task) (db : D1) :
  ~ none_pending (id t) db ->
  start_step (AtUpdate (Some t)) db =
    ((update_start (id t) db).1, Answered (mkResponse 200 (JTask t))).
Proof.
  intros Hsome. cbn [start_step].
  assert (snd (update_start (id t) db) = true) as Hch.
  { apply update_start_changed.
    destruct (decide (Exists (pending_with_id (id t)) (tasks db))) as [|Hno];
      [done|].
    by destruct Hsome; apply none_pending_not_Exists. }
  destruct (update_start (id t) db) as [db' ch]. simpl in Hch. by subst ch.
Qed.

(** C5, amended. The SELECT of a claim hands what it found to the
    UPDATE, and it finds nothing exactly when no task of the tag is
    pending.  A caller whose UPDATE finds the selected row no longer
    pending is answered 409 "Task status was already changed" and the
    store stays as it is; [startNextTask] throws this answer as a
    [ResponseError] with status 409.  A caller whose row is still pending
    is answered 200 with the task.  A caller whose SELECT found nothing
    is answered 200 with [null], and [startNextTask] returns no task in
    this case only. *)
Theorem lost_race_result (tg : string) (sel : option Task) (db : D1) :
  start_step (AtSelect tg) db = (db, AtUpdate (select_next_pending tg db)) /\
  (select_next_pending tg db = None <->
   Forall (fun r => ~ (tag r = tg /\ status r = "pending")) (tasks db)) /\
  (forall t, sel = Some t -> none_pending (id t) db ->
     start_step (AtUpdate sel) db =
       (db, Answered (mkResponse 409 (Text "Task status was already changed"))) /\
     claim_result (start_step (AtUpdate sel) db).2 =
       Some (Throw (ResponseError "Request failed with status 409" 409))) /\
  (forall t, sel = Some t -> ~ none_pending (id t) db ->
     start_step (AtUpdate sel) db =
       ((update_start (id t) db).1, Answered (mkResponse 200 (JTask t))) /\
     claim_result (start_step (AtUpdate sel) db).2 = Some (Ok (Some t))) /\
  (sel = None ->
     start_step (AtUpdate sel) db = (db, Answered (mkResponse 200 JNull)) /\
     claim_result (start_step (AtUpdate sel) db).2 = Some (Ok None)) /\
  (claim_result (start_step (AtUpdate sel) db).2 = Some (Ok None) <-> sel = None).
Proof.
  split; [done|]. split; [apply select_next_pending_None_iff|].
  assert (forall t, none_pending (id t) db ->
            start_step (AtUpdate (Some t)) db =
              (db, Answered (mkResponse 409 (Text "Task status was already changed"))))
    as Hlost.
  { intros t Hnone. cbn [start_step].
    by rewrite (update_start_none_pending _ _ Hnone). }
  split; [|split; [|split]].
  - intros t -> Hnone. by rewrite (Hlost t Hnone).
  - intros t -> Hsome. by rewrite (start_step_wins t db Hsome).
  - by intros ->.
  - split; [|by intros ->]. destruct sel as [t|]; [|done].
    destruct (decide (none_pending (id t) db)) as [Hnone|Hsome].
    + by rewrite (Hlost t Hnone).
    + by rewrite (start_step_wins t db Hsome).
Qed.

Lemma lost_race_result_witness :
  start_step (AtUpdate (Some (mkTask 1 "t1" echo_hi "pending"))) one_running =
    (one_running, Answered (mkResponse 409 (Text "Task status was already changed"))) /\
  claim_result (start_step (AtUpdate (Some (mkTask 1 "t1" echo_hi "pending"))) one_running).2 =
    Some (Throw (ResponseError "Request failed with status 409" 409)).
Proof.
  destruct (lost_race_result "t1" (Some (mkTask 1 "t1" echo_hi "pending"))
              one_running) as (_ & _ & Hlost & _).
  apply (Hlost (mkTask 1 "t1" echo_hi "pending")).
  - reflexivity.
  - apply (bool_decide_unpack _). vm_compute. reflexivity.
Defined.

(** ** What a cycle of the agent does *)

(** What [request] returns when it returns a value. *)
Lemma request_Ok {T} (net : Net) (handler : D1 -> D1 * Response)
    (schema : Body -> option T) (db db1 : D1) (v : T) :
  request net handler schema db = (db1, Ok v) ->
  net = delivered /\ db1 = (handler db).1 /\
  schema (res_body (handler db).2) = Some v.
Proof.
  unfold request, read_response. destruct net; [|done..].
  destruct (handler db) as [db' res]. cbn [fst snd].
  case_decide; [|done].
  destruct (schema (res_body res)) as [v'|]; [|done]. by intros [= <- <-].
Qed.

(** [request] throws a [ResponseError] or what [fetch] rejects with. *)
Lemma request_no_ExecaError {T} (net : Net) (handler : D1 -> D1 * Response)
    (schema : Body -> option T) (db db1 : D1) (code : option Z) :
  request net handler schema db <> (db1, Throw (ExecaError code)).
Proof.
  unfold request, read_response. destruct net; [|by intros [=]..].
  destruct (handler db) as [db' res].
  case_decide; [destruct (schema _)|]; by intros [=].
Qed.

(** The only route that answers a request without a body with one task
    is the claim. *)
Lemma router_fetch_task (route : Route) (db : D1) (t : Task) :
  res_body (router_fetch route db).2 = JTask t ->
  exists tg, route = POST_tasks_start tg /\ select_next_pending tg db = Some t.
Proof.
  destruct route as [| | | | |tg|tg|tg|tg|[i|]|i|[i|]| |[i|]| |];
    try (by intros [=]).
  intros Hbody. exists tg. split; [done|].
  cbn [router_fetch] in Hbody. rewrite post_tasks_start_answer in Hbody.
  cbn [snd res_body] in Hbody.
  destruct (select_next_pending tg db) as [t'|]; [|done]. by injection Hbody as ->.
Qed.

(** A claim that returns a task reached the claim's handler with some
    tag; the task is the one the handler selected for that tag, and the
    store is the one its UPDATE left. *)
Lemma startNextTask_Some (h : Host) (net : Net) (tg : string) (db db1 : D1)
    (t : Task) :
  startNextTask h net tg db = (db1, Ok (Some t)) ->
  net = delivered /\
  exists tg',
    route_of h "POST" ("/tasks/start/" +:+ tg) = POST_tasks_start tg' /\
    select_next_pending tg' db = Some t /\
    db1 = fst (update_start (id t) db).
Proof.
  unfold startNextTask. intros (-> & -> & Hschema)%request_Ok. split; [done|].
  destruct (res_body _) as [|t'| | | | | | |] eqn:Hbody; try done.
  injection Hschema as ->.
  destruct (router_fetch_task _ _ _ Hbody) as (tg' & Hroute & Hsel).
  exists tg'. split; [done|]. split; [done|].
  rewrite Hroute. cbn [router_fetch]. by rewrite post_tasks_start_answer, Hsel.
Qed.

(** The preparation loop runs the commands in their order as long as
    they exit with 0, and stops at the first one that does not. *)
Lemma run_preTask_stops (h : Host) (passed rest : list (string + list string))
    (c : string + list string) :
  Forall (fun p => exit_of h (preTask_command h p) = 0) passed ->
  exit_of h (preTask_command h c) <> 0 ->
  run_preTask h (passed ++ c :: rest) =
    ((map (fun p => PreTask (preTask_command h p) 0) passed
        ++ [PreTask (preTask_command h c) (exit_of h (preTask_command h c))])%list,
     Throw (ExecaError (Some (exit_of h (preTask_command h c))))).
Proof.
  intros Hpassed Hfail. induction Hpassed as [|p passed Hp _ IH].
  - cbn [app run_preTask map]. by rewrite decide_False.
  - cbn [app run_preTask map]. rewrite decide_True by done. by rewrite IH, Hp.
Qed.

Lemma runNextTask_Started (cfg : Config) (h : Host) (net : Net) (tg : string)
    (db db1 : D1) (acts : list Action) (r : Run) :
  runNextTask cfg h net tg db = (db1, acts, Started r) ->
  exists t,
    startNextTask h net tg db = (db1, Ok (Some t)) /\ r = mkRun t (task t) [] true.
Proof.
  unfold runNextTask.
  destruct (startNextTask h net tg db) as [db' [[t|]|e]]; [|done..].
  destruct (match preTask cfg with Some cmds => run_preTask h cmds | None => _ end)
    as [acts' [u|e]]; [|done].
  intros [= <- _ <-]. by exists t.
Qed.

(** A cycle that a preparation command ended had claimed a task. *)
Lemma runNextTask_ExecaError (cfg : Config) (h : Host) (net : Net) (tg : string)
    (db db1 : D1) (acts : list Action) (code : option Z) :
  runNextTask cfg h net tg db = (db1, acts, Rejected (ExecaError code)) ->
  exists t, startNextTask h net tg db = (db1, Ok (Some t)).
Proof.
  unfold runNextTask.
  destruct (startNextTask h net tg db) as [db' [[t|]|e]] eqn:Hstart; [|done|].
  - destruct (match preTask cfg with Some cmds => run_preTask h cmds | None => _ end)
      as [acts' [u|e]]; [done|].
    intros [= <- _ _]. by exists t.
  - intros [= <- _ ->]. unfold startNextTask in Hstart.
    by apply request_no_ExecaError in Hstart.
Qed.

(** C4, amended. The preparation commands are executed after the claim,
    and only when the claim returned a task.  When the claim returns a
    task and a preparation command exits non-zero, the cycle has claimed
    first, has run the commands before the failing one in their order,
    stops at the failing one and is rejected with its error: the later
    commands are not run and nothing is spawned.  The task it claimed is
    no longer pending: its stored status is "running".  When the claim
    returns no task, no preparation command runs.  A cycle is never
    rejected by a preparation command without having claimed a task. *)
Theorem failed_preparation_after_claim (cfg : Config) (h : Host)
    (tg tg' : string) (db : D1) (passed rest : list (string + list string))
    (c : string + list string) :
  route_of h "POST" ("/tasks/start/" +:+ tg) = POST_tasks_start tg' ->
  preTask cfg = Some (passed ++ c :: rest)%list ->
  Forall (fun p => exit_of h (preTask_command h p) = 0) passed ->
  exit_of h (preTask_command h c) <> 0 ->
  let code := exit_of h (preTask_command h c) in
  (forall t, select_next_pending tg' db = Some t ->
     runNextTask cfg h delivered tg db =
       ((update_start (id t) db).1,
        (Claim tg :: map (fun p => PreTask (preTask_command h p) 0) passed
           ++ [PreTask (preTask_command h c) code])%list,
        Rejected (ExecaError (Some code))) /\
     status t = "pending" /\
     mkTask (id t) (tag t) (task t) "running" ∈ tasks (update_start (id t) db).1 /\
     none_pending (id t) (update_start (id t) db).1) /\
  (select_next_pending tg' db = None ->
     runNextTask cfg h delivered tg db = (db, [Claim tg], NoTask)) /\
  (forall net db1 acts e,
     runNextTask cfg h net tg db = (db1, acts, Rejected (ExecaError e)) ->
     net = delivered /\
     exists t, select_next_pending tg' db = Some t /\
               db1 = (update_start (id t) db).1).
Proof.
  intros Hroute Hcmds Hpassed Hfail code. split; [|split].
  - intros t Hsel.
    destruct (select_next_pending_Some _ _ _ Hsel) as (Hin & _ & Hst).
    split; [|split; [done|split]].
    + unfold runNextTask.
      rewrite (startNextTask_routed h tg tg' db Hroute), Hsel, Hcmds.
      by rewrite (run_preTask_stops h passed rest c Hpassed Hfail).
    + by apply update_start_running.
    + apply update_start_no_pending.
  - intros Hnone. unfold runNextTask.
    by rewrite (startNextTask_routed h tg tg' db Hroute), Hnone.
  - intros net db1 acts e Hrun.
    apply runNextTask_ExecaError in Hrun as [t Hstart].
    apply startNextTask_Some in Hstart as (-> & tg0 & Hroute0 & Hsel & ->).
    split; [done|]. exists t. split; [|done]. congruence.
Qed.

Lemma failed_preparation_after_claim_witness :
  runNextTask three_step_config offline_host delivered "t1" one_pending =
    (one_running,
     [Claim "t1"; PreTask ["npm"; "ci"] 0; PreTask ["git pull"] 1],
     Rejected (ExecaError (Some 1))) /\
  map status (tasks one_running) = ["running"].
Proof.
  destruct (failed_preparation_after_claim three_step_config offline_host
              "t1" "t1" one_pending [inr ["npm"; "ci"]] [inl "make"]
              (inl "git pull")) as (Hfails & _ & _).
  - reflexivity.
  - reflexivity.
  - repeat constructor.
  - vm_compute. discriminate.
  - destruct (Hfails (mkTask 1 "t1" echo_hi "pending")) as (Hrun & _);
      [reflexivity|].
    split; [exact Hrun | reflexivity].
Defined.

(** With [git pull] failing on the host, a cycle on a store with one
    pending task claims first and prepares second, and the failed
    preparation leaves the task claimed: it went from pending to
    running. *)
Lemma preparation_failure_leaves_task_claimed :
  runNextTask prepared_config offline_host delivered "t1" one_pending =
    (one_running, [Claim "t1"; PreTask ["git pull"] 1],
     Rejected (ExecaError (Some 1))) /\
  ~ prepares_before_claiming [Claim "t1"; PreTask ["git pull"] 1] /\
  map status (tasks one_pending) = ["pending"] /\
  map status (tasks one_running) = ["running"].
Proof.
  split; [reflexivity|]. split; [|by split].
  intros Hord.
  specialize (Hord 1%nat 0%nat ["git pull"] 1 "t1" eq_refl eq_refl). lia.
Qed.

(** ** Updates of a task row *)

Lemma update_task_elem_of (i : Z) (tg : string) (tk : TaskData) (st : string)
    (db : D1) (row : Task) :
  row ∈ tasks (update_task i tg tk st db) <->
  exists r0, r0 ∈ tasks db /\
    row = if decide (id r0 = i) then mkTask (id r0) tg tk st else r0.
Proof.
  unfold update_task. simpl. rewrite list_elem_of_fmap.
  split; intros (r0 & H1 & H2); exists r0; by split.
Qed.

Lemma updateTask_delivered (t : Task) (db : D1) :
  status t ∈ status_enum ->
  updateTask delivered t db =
    (update_task (id t) (tag t) (task t) (status t) db, Ok tt).
Proof.
  intros Hst. unfold updateTask, request, put_task. by rewrite decide_True.
Qed.

(** A heartbeat leaves [task] as it was claimed. *)
Lemma heartbeat_run_task (now : Z) (net : Net) (r : Run) (db : D1) :
  run_task (heartbeat now net r db).1 = run_task r.
Proof. done. Qed.

Lemma heartbeats_snoc (nows : list Z) (now : Z) (net : Net) (r : Run) (db : D1) :
  heartbeats (nows ++ [now]) net r db =
    heartbeat now net (heartbeats nows net r db).1 (heartbeats nows net r db).2.
Proof. unfold heartbeats. by rewrite foldl_app. Qed.

Lemma heartbeats_run_task (nows : list Z) (net : Net) (r : Run) (db : D1) :
  run_task (heartbeats nows net r db).1 = run_task r.
Proof.
  induction nows as [|now nows IH] using rev_ind; [done|].
  by rewrite heartbeats_snoc, heartbeat_run_task.
Qed.

(** What a delivered heartbeat of a run claimed as pending does to the
    rows of the store. *)
Lemma heartbeat_rows (now : Z) (r : Run) (db : D1) (row : Task) :
  status (run_task r) = "pending" ->
  row ∈ tasks (heartbeat now delivered r db).2 <->
  exists r0, r0 ∈ tasks db /\
    row = if decide (id r0 = id (run_task r))
          then mkTask (id r0) (tag (run_task r))
                 (mkTaskData (command (taskData r)) (exitCode (taskData r)) (Some now))
                 "pending"
          else r0.
Proof.
  intros Hst. unfold heartbeat. cbn [snd].
  rewrite updateTask_delivered by (cbn; rewrite Hst; by constructor).
  cbn [fst]. rewrite update_task_elem_of. cbn. by rewrite Hst.
Qed.

Lemma heartbeats_keep_ids (nows : list Z) (r : Run) (db : D1) (i : Z) :
  status (run_task r) = "pending" ->
  i ∈ map id (tasks db) ->
  i ∈ map id (tasks (heartbeats nows delivered r db).2).
Proof.
  intros Hst. induction nows as [|now nows IH] using rev_ind; [done|].
  intros Hi. specialize (IH Hi). rewrite heartbeats_snoc.
  apply list_elem_of_fmap in IH as (r0 & -> & Hr0).
  apply list_elem_of_fmap. eexists. split; [|apply heartbeat_rows].
  2: { by rewrite heartbeats_run_task. }
  2: { exists r0. split; [done|reflexivity]. }
  by case_decide.
Qed.

(** C2. The record a successful claim returns is the row as the SELECT
    read it: its status is "pending" although the stored row now says
    "running".  Every heartbeat of the run sends this record with only
    [task] replaced, so after one or more heartbeats the stored row of
    the task has status "pending" again, with the time of the last
    heartbeat. *)
Theorem heartbeat_writes_pending (cfg : Config) (h : Host) (tg : string)
    (db db1 : D1) (acts : list Action) (r : Run) (nows : list Z) (now : Z) :
  runNextTask cfg h delivered tg db = (db1, acts, Started r) ->
  status (run_task r) = "pending" /\
  mkTask (id (run_task r)) (tag (run_task r)) (task (run_task r)) "running"
    ∈ tasks db1 /\
  let db2 := (heartbeats (nows ++ [now]) delivered r db1).2 in
  id (run_task r) ∈ map id (tasks db2) /\
  forall row, row ∈ tasks db2 -> id row = id (run_task r) ->
              status row = "pending" /\ lastHeartbeat (task row) = Some now.
Proof.
  intros Hrun.
  apply runNextTask_Started in Hrun as (t & Hstart & ->).
  apply startNextTask_Some in Hstart as (_ & tg' & _ & Hsel & ->).
  destruct (select_next_pending_Some _ _ _ Hsel) as (Hin & _ & Hst).
  split; [exact Hst|]. split; [by apply (update_start_running _ _ t)|].
  set (r := mkRun t (task t) [] true).
  assert (status (run_task r) = "pending") as Hr by done.
  intros db2. split.
  - apply heartbeats_keep_ids; [done|].
    apply list_elem_of_fmap. eexists. split; [|by apply update_start_running].
    done.
  - intros row Hrow Hid. unfold db2 in Hrow. rewrite heartbeats_snoc in Hrow.
    apply heartbeat_rows in Hrow as (r0 & _ & Heq);
      [|by rewrite heartbeats_run_task].
    rewrite heartbeats_run_task in Heq. cbn [run_task r] in Heq.
    case_decide as Hd; subst row; [done|]. by destruct Hd.
Qed.

Lemma heartbeat_writes_pending_witness :
  let r := mkRun (mkTask 1 "t1" echo_hi "pending") echo_hi [] true in
  status (run_task r) = "pending" /\
  mkTask (id (run_task r)) (tag (run_task r)) (task (run_task r)) "running"
    ∈ tasks one_running /\
  let db2 := (heartbeats ([30000] ++ [60000]) delivered r one_running).2 in
  id (run_task r) ∈ map id (tasks db2) /\
  forall row, row ∈ tasks db2 -> id row = id (run_task r) ->
              status row = "pending" /\ lastHeartbeat (task row) = Some 60000.
Proof.
  apply (heartbeat_writes_pending plain_config offline_host "t1" one_pending
           one_running [Claim "t1"; Spawn ["echo"; "hi"]]).
  reflexivity.
Defined.

(** The store of the witness, written out: the claimed task is pending
    again after the two heartbeats. *)
Example heartbeat_store :
  (heartbeats [30000; 60000] delivered
     (mkRun (mkTask 1 "t1" echo_hi "pending") echo_hi [] true) one_running).2 =
  mkD1 [mkTask 1 "t1" (mkTaskData ["echo"; "hi"] None (Some 60000)) "pending"] 1 [].
Proof. reflexivity. Qed.

(** ** The log flush *)

Lemma appendLog_tasks (net : Net) (tid : Z) (lg : LogChunk) (db : D1) :
  tasks (appendLog net tid lg db).1 = tasks db.
Proof.
  unfold appendLog, request, post_logs.
  destruct (insert_log tid lg db) as [db'|] eqn:Hins.
  - apply insert_log_Some in Hins as [Ht _]. by destruct net.
  - by destruct net.
Qed.

(** C3, amended. A flush of a non-empty buffer puts the buffered entries
    into one chunk and empties the buffer before [appendLog] is called.
    The buffer is therefore empty after the flush whether the append
    succeeded or failed, and the next flush has nothing to send.  A
    successful append has stored exactly that chunk, entries in capture
    order; a failed one has stored nothing, unless only the answer was
    lost. *)
Theorem flush_drains_first (now now' : Z) (net net' : Net) (r : Run) (db : D1) :
  run_logs r <> [] ->
  let '(r', db', o) := sendLogs now net r db in
  run_logs r' = [] /\
  sendLogs now' net' r' db' = (r', db', Ok tt) /\
  match o with
  | Ok _ =>
      logs db' =
        (logs db ++ [mkLogRow (max_log_id (logs db) + 1) (id (run_task r))
                       (mkLogChunk now (run_logs r))])%list
  | Throw _ => net = response_lost \/ db' = db
  end.
Proof.
  intros Hbuf. unfold sendLogs at 1.
  destruct (run_logs r) as [|e es] eqn:Hlogs; [done|].
  unfold appendLog, request, post_logs.
  destruct (insert_log _ _ db) as [db'|] eqn:Hins.
  - apply insert_log_Some in Hins as [_ Hl].
    destruct net; cbn; repeat split; auto.
  - destruct net; cbn; repeat split; auto.
    unfold read_response. rewrite decide_False by (cbn; lia). by right.
Qed.

Lemma flush_drains_first_witness :
  let '(r', db', o) := sendLogs 10000 delivered run_with_output one_running in
  run_logs r' = [] /\
  sendLogs 20000 delivered r' db' = (r', db', Ok tt) /\
  match o with
  | Ok _ =>
      logs db' =
        (logs one_running ++
           [mkLogRow (max_log_id (logs one_running) + 1) (id (run_task run_with_output))
              (mkLogChunk 10000 (run_logs run_with_output))])%list
  | Throw _ => delivered = response_lost \/ db' = one_running
  end.
Proof.
  apply (flush_drains_first 10000 20000 delivered delivered run_with_output
           one_running).
  discriminate.
Defined.

(** A flush whose request is lost: the append fails, yet the buffer is
    empty afterwards, nothing was stored, and the next flush, although
    delivered, stores nothing either.  The captured entry is gone. *)
Lemma failed_flush_loses_output :
  let '(r', db', o) := sendLogs 10000 request_lost run_with_output one_running in
  o = Throw FetchError /\
  run_logs run_with_output = [mkLogEntry "stdout" "aGk="] /\
  run_logs r' = [] /\
  logs db' = [] /\
  logs (sendLogs 20000 delivered r' db').1.2 = [].
Proof. repeat split. Qed.

(** ** Requeue *)

Lemma getTaskById_throws (net : Net) (i : Z) (db : D1) :
  exists e, getTaskById net i db = (db, Throw e).
Proof. destruct net; by eexists. Qed.

(** The CLI's [requeue] and the web interface's [handleRequeue] never
    reach their update: GET /tasks/:id answers with an array, which the
    client's [taskSchema] rejects and which has no [task] to parse. *)
Lemma requeue_never_updates (net_get net_put : Net) (i : Z) (db : D1) :
  (exists e, requeue net_get net_put i db = (db, Throw e)) /\
  handleRequeue i db = (db, Throw SyntaxError).
Proof.
  split; [|done]. unfold requeue.
  destruct (getTaskById_throws net_get i db) as [e ->]. by exists e.
Qed.

(** C7. Requeueing the finished task 1: the command throws "Response
    parsing failed" before it updates anything, and so does the button of
    the web interface; the store is as before, the task still done with
    its exit code and heartbeat.  The record [requeue] would have sent
    is the one the claim describes. *)
Theorem requeue_leaves_done_task :
  requeue delivered delivered 1 one_done =
    (one_done, Throw (ResponseError "Response parsing failed" 500)) /\
  handleRequeue 1 one_done = (one_done, Throw SyntaxError) /\
  tasks one_done =
    [mkTask 1 "t1" (mkTaskData ["echo"; "hi"] (Some 0) (Some 30000)) "done"] /\
  map requeued (tasks one_done) = [mkTask 1 "t1" echo_hi "pending"].
Proof. repeat split. Qed.

(** ** Exit codes in reachable stores *)

Lemma request_store {T} (net : Net) (handler : D1 -> D1 * Response)
    (schema : Body -> option T) (db : D1) :
  (request net handler schema db).1 = db \/
  (request net handler schema db).1 = (handler db).1.
Proof. unfold request. destruct net, (handler db); auto. Qed.

Lemma request_rows_ok {T} (net : Net) (handler : D1 -> D1 * Response)
    (schema : Body -> option T) (db : D1) :
  rows_ok db -> rows_ok (handler db).1 ->
  rows_ok (request net handler schema db).1.
Proof.
  intros Hdb Hh. by destruct (request_store net handler schema db) as [-> | ->].
Qed.

Lemma update_task_rows_ok (i : Z) (tg : string) (tk : TaskData) (st : string)
    (db : D1) :
  rows_ok db -> exit_code_iff_done (mkTask i tg tk st) ->
  rows_ok (update_task i tg tk st db).
Proof.
  unfold rows_ok in *.
  intros Hdb Hnew. apply Forall_forall. intros row Hrow.
  apply update_task_elem_of in Hrow as (r0 & Hr0 & ->).
  case_decide; [exact Hnew|]. rewrite Forall_forall in Hdb. by apply Hdb.
Qed.

Lemma put_task_rows_ok (i : Z) (body : Task) (db : D1) :
  rows_ok db -> exit_code_iff_done body -> rows_ok (put_task i body db).1.
Proof.
  intros Hdb Hbody. unfold put_task. case_decide; [|done].
  by apply update_task_rows_ok.
Qed.

Lemma updateTask_rows_ok (net : Net) (t : Task) (db : D1) :
  rows_ok db -> exit_code_iff_done t -> rows_ok (updateTask net t db).1.
Proof.
  intros Hdb Ht. apply request_rows_ok; [done|]. by apply put_task_rows_ok.
Qed.

Lemma delete_where_rows_ok (P : Task -> Prop) `{!forall r, Decision (P r)}
    (db : D1) :
  rows_ok db -> rows_ok (delete_where P db).1.
Proof.
  unfold rows_ok in *.
  intros Hdb. simpl. rewrite Forall_forall in Hdb |- *.
  intros row Hrow. apply list_elem_of_filter in Hrow as [_ Hrow]. by apply Hdb.
Qed.

Lemma post_tasks_rows_ok (tg : string) (cmd : list string) (db : D1) :
  rows_ok db -> rows_ok (post_tasks tg (mkTaskData cmd None None) "pending" db).1.
Proof.
  unfold rows_ok in *.
  intros Hdb. unfold post_tasks. case_decide; [|done]. simpl.
  apply Forall_app. split; [done|].
  apply Forall_singleton. split; [split|]; simpl.
  - by intros [c [=]].
  - intros [=].
  - intros c [=].
Qed.

Lemma update_start_rows_ok (i : Z) (db : D1) :
  rows_ok db -> rows_ok (update_start i db).1.
Proof.
  unfold rows_ok in *.
  intros Hdb. unfold update_start. simpl.
  rewrite Forall_forall in Hdb |- *. intros row Hrow.
  apply list_elem_of_fmap in Hrow as (r0 & -> & Hr0).
  specialize (Hdb r0 Hr0). case_decide as Hd; [|done].
  destruct Hd as [_ Hpend]. destruct Hdb as [Hiff Hzero].
  split; [split|]; simpl.
  - intros Hex. apply Hiff in Hex. congruence.
  - intros [=].
  - exact Hzero.
Qed.

Lemma post_tasks_start_rows_ok (tg : string) (db : D1) :
  rows_ok db -> rows_ok (post_tasks_start tg db).1.
Proof.
  intros Hdb. rewrite post_tasks_start_answer. cbn [fst].
  destruct (select_next_pending tg db) as [t|]; [|done].
  by apply update_start_rows_ok.
Qed.

(** Whatever route a request without a body ends at, the rows stay as
    they should be. *)
Lemma router_fetch_rows_ok (route : Route) (db : D1) :
  rows_ok db -> rows_ok (router_fetch route db).1.
Proof.
  intros Hdb.
  destruct route as [| | | | |tg|tg|tg|tg|[i|]|i|[i|]| |[i|]| |];
    cbn [router_fetch]; try done.
  - unfold delete_tasks.
    pose proof (delete_where_rows_ok (fun _ => True) db Hdb).
    by destruct (delete_where _ _).
  - unfold delete_tasks_completed.
    pose proof (delete_where_rows_ok (fun r => status r = "done") db Hdb).
    by destruct (delete_where _ _).
  - unfold delete_tasks_tag.
    pose proof (delete_where_rows_ok (fun r => tag r = tg) db Hdb).
    by destruct (delete_where _ _).
  - unfold delete_tasks_tag_completed.
    pose proof (delete_where_rows_ok
                  (fun r => tag r = tg /\ status r = "done") db Hdb).
    by destruct (delete_where _ _).
  - by apply post_tasks_start_rows_ok.
  - unfold delete_task. cbn [fst]. by apply delete_where_rows_ok.
Qed.

Lemma add_rows_ok (cfg : Config) (net : Net) (tg : option string)
    (cmd : list string) (db : D1) :
  rows_ok db -> rows_ok (add cfg net tg cmd db).1.
Proof.
  intros Hdb. unfold add. destruct (pick_tag cfg tg); [|done].
  apply request_rows_ok; [done|]. by apply post_tasks_rows_ok.
Qed.

Lemma runNextTask_inv (cfg : Config) (h : Host) (net : Net) (tg : string)
    (db : D1) :
  rows_ok db ->
  rows_ok (runNextTask cfg h net tg db).1.1 /\
  forall r, (runNextTask cfg h net tg db).2 = Started r -> run_inv r.
Proof.
  intros Hdb.
  assert (rows_ok (startNextTask h net tg db).1) as Hstore.
  { apply request_rows_ok; [done|]. by apply router_fetch_rows_ok. }
  split.
  - unfold runNextTask.
    destruct (startNextTask h net tg db) as [db1 [[t|]|e]]; try done.
    by destruct (match preTask cfg with Some cmds => run_preTask h cmds | None => _ end)
      as [acts [u|e]].
  - intros r Hr.
    destruct (runNextTask cfg h net tg db) as [[db1 acts] c] eqn:Hrun.
    simpl in Hr. subst c.
    apply runNextTask_Started in Hrun as (t & Hstart & ->).
    apply startNextTask_Some in Hstart as (_ & tg' & _ & Hsel & _).
    destruct (select_next_pending_Some _ _ _ Hsel) as (Hin & _ & Hst).
    intros _. simpl. split; [|done].
    unfold rows_ok in Hdb. rewrite Forall_forall in Hdb.
    destruct (Hdb t Hin) as [Hiff _].
    destruct (exitCode (task t)) as [c|]; [|done].
    assert (status t = "done") by (apply Hiff; by eexists). congruence.
Qed.

Lemma heartbeat_inv (now : Z) (net : Net) (r : Run) (db : D1) :
  rows_ok db -> run_inv r -> intervals r = true ->
  rows_ok (heartbeat now net r db).2 /\ run_inv (heartbeat now net r db).1.
Proof.
  intros Hdb Hr Hlive. destruct (Hr Hlive) as [Hcode Hst]. split.
  - apply updateTask_rows_ok; [done|].
    split; [split|]; simpl; rewrite ?Hcode, ?Hst.
    + by intros [c [=]].
    + intros [=].
    + intros c [=].
  - by intros _.
Qed.

Lemma sendLogs_tasks (now : Z) (net : Net) (r : Run) (db : D1) :
  tasks (sendLogs now net r db).1.2 = tasks db /\
  run_task (sendLogs now net r db).1.1 = run_task r /\
  taskData (sendLogs now net r db).1.1 = taskData r /\
  intervals (sendLogs now net r db).1.1 = intervals r.
Proof.
  unfold sendLogs. destruct (run_logs r); [done|].
  pose proof (appendLog_tasks net (id (run_task r))
                (mkLogChunk now (l :: l0)) db) as Ht.
  by destruct (appendLog _ _ _ _) as [db' o].
Qed.

Lemma finalize_inv (net_task : Net) (r : Run) (db : D1) :
  rows_ok db ->
  rows_ok (finalize (Some 0) net_task r db).1.2 /\
  run_inv (finalize (Some 0) net_task r db).1.1.
Proof.
  intros Hdb. unfold finalize. cbn zeta.
  match goal with |- context [updateTask net_task ?t db] =>
    assert (exit_code_iff_done t) as Ht
      by (split; [split; [done | by eexists] | by intros c [= <-]]);
    pose proof (updateTask_rows_ok net_task t db Hdb Ht) as Hup;
    destruct (updateTask net_task t db) as [db2 o]
  end.
  split; [done|]. by intros [=].
Qed.

(** The close of a child that exited with 0. *)
Lemma on_close_zero (now : Z) (net_log net_task : Net) (r : Run) (db : D1) :
  on_close (Some 0) now net_log net_task r db =
    let r0 := mkRun (run_task r) (taskData r) (run_logs r) false in
    let '(r1, db1, sent) :=
      match run_logs r0 with
      | [] => (r0, db, Ok tt)
      | _ :: _ => sendLogs now net_log r0 db
      end in
    match sent with
    | Throw e => (r1, db1, Throw e)
    | Ok _ => finalize (Some 0) net_task r1 db1
    end.
Proof. reflexivity. Qed.

(** The close of a child that failed: nothing reaches the store. *)
Lemma on_close_failed (code : option Z) (now : Z) (net_log net_task : Net)
    (r : Run) (db : D1) :
  code <> Some 0 ->
  on_close code now net_log net_task r db =
    (mkRun (run_task r) (taskData r) [] false, db, Throw (ExecaError code)).
Proof. intros Hcode. by destruct code as [[|p|p]|]. Qed.

Lemma on_close_inv (code : option Z) (now : Z) (net_log net_task : Net)
    (r : Run) (db : D1) :
  rows_ok db ->
  rows_ok (on_close code now net_log net_task r db).1.2 /\
  run_inv (on_close code now net_log net_task r db).1.1.
Proof.
  intros Hdb. destruct (decide (code = Some 0)) as [->|Hcode].
  - rewrite on_close_zero. cbn zeta.
    set (r0 := mkRun (run_task r) (taskData r) (run_logs r) false).
    destruct (run_logs r0) as [|e es] eqn:Hbuf.
    + by apply finalize_inv.
    + destruct (sendLogs_tasks now net_log r0 db) as (Ht & _ & _ & Hi).
      destruct (sendLogs now net_log r0 db) as [[r1 db1] [u|err]]; simpl in *.
      * apply finalize_inv. unfold rows_ok. by rewrite Ht.
      * split; [unfold rows_ok; by rewrite Ht|].
        unfold run_inv. rewrite Hi. by intros [=].
  - rewrite on_close_failed by done. split; [done|]. by intros [=].
Qed.

Lemma with_run_inv (k : nat) (sys : System) (f : Run -> D1 -> Run * D1) :
  sys_inv sys ->
  (forall r db, rows_ok db -> run_inv r -> intervals r = true ->
                rows_ok (f r db).2 /\ run_inv (f r db).1) ->
  sys_inv (with_run k sys f).
Proof.
  intros [Hdb Hruns] Hf. unfold with_run.
  destruct (runs sys !! k) as [r|] eqn:Hk; [|done].
  destruct (intervals r) eqn:Hlive; [|done].
  assert (run_inv r) as Hr.
  { rewrite Forall_forall in Hruns. apply Hruns. by eapply list_elem_of_lookup_2. }
  destruct (Hf r (store sys) Hdb Hr Hlive) as [Hdb' Hr'].
  destruct (f r (store sys)) as [r' db']. split; simpl in *; [done|].
  by apply Forall_insert.
Qed.

Lemma step_inv (ev : Event) (sys : System) :
  sys_inv sys -> sys_inv (step ev sys).
Proof.
  intros Hsys. pose proof Hsys as [Hdb Hruns]. destruct ev; cbn [step].
  - split; [by apply add_rows_ok | done].
  - destruct (runNextTask_inv cfg h net tg (store sys) Hdb) as [Hstore Hrun].
    destruct (runNextTask cfg h net tg (store sys)) as [[db' acts] [|r|e]];
      simpl in *; split; try done.
    apply Forall_app. split; [done|]. apply Forall_singleton. by apply Hrun.
  - apply with_run_inv; [done|]. by intros r db Hd Hr Hl.
  - apply with_run_inv; [done|]. intros r db Hd Hr Hl. by apply heartbeat_inv.
  - apply with_run_inv; [done|]. intros r db Hd Hr Hl.
    destruct (sendLogs_tasks now net r db) as (Ht & Hrt & Htd & Hi).
    split.
    + unfold rows_ok. by rewrite Ht.
    + unfold run_inv. rewrite Htd, Hrt. intros _. by apply Hr.
  - apply with_run_inv; [done|]. intros r db Hd Hr Hl. by apply on_close_inv.
  - destruct (requeue_never_updates net_get net_put i (store sys)) as [[e ->] _].
    by split.
  - destruct (requeue_never_updates delivered delivered i (store sys)) as [_ ->].
    by split.
  - split; [|done]. simpl. apply request_rows_ok; [done|].
    by apply delete_where_rows_ok.
  - split; [|done]. simpl. unfold clean.
    destruct (truthy tg); (apply request_rows_ok; [done|]).
    + by apply router_fetch_rows_ok.
    + by apply (router_fetch_rows_ok DELETE_tasks_completed).
  - split; [|done]. simpl. unfold reset.
    destruct (truthy tg); (apply request_rows_ok; [done|]).
    + by apply router_fetch_rows_ok.
    + by apply (router_fetch_rows_ok DELETE_tasks).
Qed.

Lemma steps_inv (evs : list Event) (sys : System) :
  sys_inv sys -> sys_inv (steps evs sys).
Proof.
  revert sys. induction evs as [|ev evs IH]; intros sys Hsys; [done|].
  simpl. apply IH. by apply step_inv.
Qed.

Lemma reachable_rows_ok (evs : list Event) :
  rows_ok (store (steps evs initial)).
Proof. apply (steps_inv evs initial). split; constructor. Qed.

(** The rows a delivered finalization leaves for the task of the run. *)
Lemma finalize_rows (code : option Z) (r : Run) (db : D1) (row : Task) :
  row ∈ tasks (finalize code delivered r db).1.2 -> id row = id (run_task r) ->
  row = mkTask (id (run_task r)) (tag (run_task r))
          (mkTaskData (command (taskData r)) code (lastHeartbeat (taskData r)))
          "done".
Proof.
  unfold finalize. cbn zeta.
  rewrite updateTask_delivered by (cbn; repeat constructor). cbn [fst snd].
  intros Hrow Hid. apply update_task_elem_of in Hrow as (r0 & _ & ->).
  cbn [id tag task status] in *. case_decide as Hd; [by rewrite Hd|].
  by destruct Hd.
Qed.

(** The rows the close of a child that exited with 0 leaves for the task
    of the run, when both requests of the handler are delivered. *)
Lemma on_close_rows (now : Z) (r : Run) (db : D1) (row : Task) :
  row ∈ tasks (on_close (Some 0) now delivered delivered r db).1.2 ->
  id row = id (run_task r) ->
  row = mkTask (id (run_task r)) (tag (run_task r))
          (mkTaskData (command (taskData r)) (Some 0) (lastHeartbeat (taskData r)))
          "done".
Proof.
  rewrite on_close_zero. cbn zeta. cbn [run_logs].
  destruct (run_logs r) as [|e es] eqn:Hbuf.
  - intros Hrow Hid. exact (finalize_rows _ _ _ _ Hrow Hid).
  - unfold sendLogs. cbn [run_logs run_task id taskData intervals].
    unfold appendLog, request, post_logs.
    destruct (insert_log _ _ db) as [db'|] eqn:Hins.
    + unfold read_response. rewrite decide_True by (cbn; lia).
      cbn [okSchema res_body].
      intros Hrow Hid. exact (finalize_rows _ _ _ _ Hrow Hid).
    + unfold read_response. rewrite decide_False by (cbn; lia). cbn [fst snd].
      intros Hrow Hid. exfalso.
      unfold insert_log in Hins. case_decide as Hno; [done|].
      apply Hno. rewrite <- Hid. apply list_elem_of_fmap. by exists row.
Qed.

(** The task of the run is still there after such a close. *)
Lemma on_close_keeps_task (now : Z) (r : Run) (db : D1) :
  id (run_task r) ∈ map id (tasks db) ->
  id (run_task r)
    ∈ map id (tasks (on_close (Some 0) now delivered delivered r db).1.2).
Proof.
  intros Hin.
  assert (forall r1 db1, id (run_task r1) = id (run_task r) ->
            tasks db1 = tasks db ->
            id (run_task r)
              ∈ map id (tasks (finalize (Some 0) delivered r1 db1).1.2)) as Hfin.
  { intros r1 db1 Hid Ht. unfold finalize. cbn zeta.
    rewrite updateTask_delivered by (cbn; repeat constructor). cbn [fst snd].
    apply list_elem_of_fmap in Hin as (r0 & Hr0 & Hin).
    apply list_elem_of_fmap. eexists. split; [|apply update_task_elem_of].
    2: { exists r0. split; [by rewrite Ht|reflexivity]. }
    by case_decide. }
  rewrite on_close_zero. cbn zeta. cbn [run_logs].
  destruct (run_logs r) as [|e es] eqn:Hbuf; [by apply Hfin|].
  unfold sendLogs. cbn [run_logs run_task id taskData intervals].
  unfold appendLog, request, post_logs, insert_log.
  rewrite decide_True by done.
  unfold read_response. rewrite decide_True by (cbn; lia).
  cbn [okSchema res_body]. by apply Hfin.
Qed.

(** C6, amended. In every store reached through the commands and the
    activities of the runs, a record has an exit code exactly when its
    status is "done".  Finalizing a run, which happens when its child
    exited with 0, writes status "done" and exit code 0 to the record of
    the task, and it keeps in the record the time of the run's last
    heartbeat instead of clearing it. *)
Theorem exit_code_exactly_when_done (evs : list Event) (now : Z) (r : Run)
    (db : D1) :
  Forall (fun t => is_Some (exitCode (task t)) <-> status t = "done")
    (tasks (store (steps evs initial))) /\
  let db' := (on_close (Some 0) now delivered delivered r db).1.2 in
  (id (run_task r) ∈ map id (tasks db) -> id (run_task r) ∈ map id (tasks db')) /\
  (forall row,
     row ∈ tasks db' -> id row = id (run_task r) ->
     status row = "done" /\ exitCode (task row) = Some 0 /\
     lastHeartbeat (task row) = lastHeartbeat (taskData r)).
Proof.
  split; [|split].
  - eapply Forall_impl; [apply (reachable_rows_ok evs)|]. by intros t [Hiff _].
  - apply on_close_keeps_task.
  - intros row Hrow Hid. by rewrite (on_close_rows _ _ _ _ Hrow Hid).
Qed.

Lemma exit_code_exactly_when_done_witness :
  Forall (fun t => is_Some (exitCode (task t)) <-> status t = "done")
    (tasks (store (steps one_full_run initial))) /\
  (status (mkTask 1 "t1" (mkTaskData ["echo"; "hi"] (Some 0) (Some 30000)) "done")
     = "done" /\
   exitCode (mkTaskData ["echo"; "hi"] (Some 0) (Some 30000)) = Some 0 /\
   lastHeartbeat (mkTaskData ["echo"; "hi"] (Some 0) (Some 30000)) = Some 30000).
Proof.
  pose proof (exit_code_exactly_when_done one_full_run 31000
                (mkRun (mkTask 1 "t1" echo_hi "pending")
                   (mkTaskData ["echo"; "hi"] None (Some 30000)) [] true)
                one_running) as (Hinv & _ & Hclose).
  split; [exact Hinv|].
  apply (Hclose (mkTask 1 "t1" (mkTaskData ["echo"; "hi"] (Some 0) (Some 30000)) "done")).
  - apply (bool_decide_unpack _). vm_compute. reflexivity.
  - reflexivity.
Defined.

(** A task is added, claimed and run; the run sends a heartbeat and ends
    with exit code 0.  The stored record is done and still carries the
    heartbeat, so it breaks the stated invariant. *)
Lemma done_record_keeps_heartbeat :
  store (steps one_full_run initial) = one_done /\
  ~ Forall record_invariant (tasks (store (steps one_full_run initial))).
Proof.
  split; [reflexivity|].
  intros Hall. apply Forall_cons in Hall as [[_ Hhb] _].
  cbn in Hhb. assert ("done" = "running") by (apply Hhb; by eexists).
  discriminate.
Qed.

(** ** Base64 *)

Lemma list_ind_by_3 {A} (P : list A -> Prop) :
  P [] -> (forall a, P [a]) -> (forall a b, P [a; b]) ->
  (forall a b c rest, P rest -> P (a :: b :: c :: rest)) ->
  forall l, P l.
Proof.
  intros H0 H1 H2 H3 l.
  assert (P l /\ (forall a, P (a :: l)) /\ (forall a b, P (a :: b :: l))) as [? _];
    [|done].
  induction l as [|x l (IH0 & IH1 & IH2)]; [by repeat split|].
  split; [apply IH1|]. split; [intros a; apply IH2|].
  intros a b. by apply H3.
Qed.

Lemma value_digit (n : N) :
  (n < 64)%N -> Base64.value (Base64.digit n) = Some n.
Proof.
  intros Hn. rewrite <- (N2Nat.id n).
  assert (N.to_nat n < 64)%nat as Hk by lia.
  generalize dependent (N.to_nat n). clear n Hn. intros k Hk.
  do 64 (destruct k as [|k]; [reflexivity|]). lia.
Qed.

Lemma value_Some_plain (c : ascii) :
  is_Some (Base64.value c) -> Base64.is_space c = false /\ c <> "="%char.
Proof.
  destruct c as [[] [] [] [] [] [] [] []]; vm_compute;
    (intros [v Hv]; first [discriminate Hv | by split]).
Qed.

Lemma N_of_ascii_lt (a : ascii) : (N_of_ascii a < 256)%N.
Proof. destruct a as [[] [] [] [] [] [] [] []]; vm_compute; reflexivity. Qed.

(** Four characters give back the three bytes they were made of. *)
Lemma decode_group (a b c : ascii) (rest : list ascii) :
  let n := ((N_of_ascii a * 256 + N_of_ascii b) * 256 + N_of_ascii c)%N in
  Base64.decode_chars
    (Base64.digit (n / 262144) :: Base64.digit ((n / 4096) mod 64)
       :: Base64.digit ((n / 64) mod 64) :: Base64.digit (n mod 64) :: rest)
    0%N 0%N =
  (fun out => a :: b :: c :: out) <$> Base64.decode_chars rest 0%N 0%N.
Proof.
  intros n.
  pose proof (N_of_ascii_lt a). pose proof (N_of_ascii_lt b).
  pose proof (N_of_ascii_lt c).
  cbn [Base64.decode_chars].
  rewrite !value_digit by (unfold n; n_arith).
  change (8 <=? 0 + 6)%N with false. cbv iota.
  change (8 <=? 0 + 6 + 6)%N with true. cbv iota.
  change (0 + 6 + 6 - 8)%N with 4%N.
  change (8 <=? 4 + 6)%N with true. cbv iota.
  change (4 + 6 - 8)%N with 2%N.
  change (8 <=? 2 + 6)%N with true. cbv iota.
  change (2 + 6 - 8)%N with 0%N.
  change (2 ^ 4)%N with 16%N. change (2 ^ 2)%N with 4%N. change (2 ^ 0)%N with 1%N.
  replace (((0 * 64 + n / 262144) * 64 + (n / 4096) mod 64) / 16)%N
    with (N_of_ascii a) by (unfold n; n_arith).
  replace (((((0 * 64 + n / 262144) * 64 + (n / 4096) mod 64) mod 16) * 64
            + (n / 64) mod 64) / 4)%N
    with (N_of_ascii b) by (unfold n; n_arith).
  replace ((((((0 * 64 + n / 262144) * 64 + (n / 4096) mod 64) mod 16) * 64
             + (n / 64) mod 64) mod 4 * 64 + n mod 64) / 1)%N
    with (N_of_ascii c) by (unfold n; n_arith).
  rewrite !ascii_N_embedding.
  replace ((((((0 * 64 + n / 262144) * 64 + (n / 4096) mod 64) mod 16) * 64
             + (n / 64) mod 64) mod 4 * 64 + n mod 64) mod 1)%N
    with 0%N by (unfold n; n_arith).
  by destruct (Base64.decode_chars rest 0 0).
Qed.

Lemma decode_last_1 (a : ascii) :
  let n := (N_of_ascii a * 16)%N in
  Base64.decode_chars [Base64.digit (n / 64); Base64.digit (n mod 64)] 0%N 0%N
  = Some [a].
Proof.
  intros n. pose proof (N_of_ascii_lt a).
  cbn [Base64.decode_chars].
  rewrite !value_digit by (unfold n; n_arith).
  change (8 <=? 0 + 6)%N with false. cbv iota.
  change (8 <=? 0 + 6 + 6)%N with true. cbv iota.
  change (0 + 6 + 6 - 8)%N with 4%N. change (2 ^ 4)%N with 16%N.
  replace (((0 * 64 + n / 64) * 64 + n mod 64) / 16)%N
    with (N_of_ascii a) by (unfold n; n_arith).
  by rewrite ascii_N_embedding.
Qed.

Lemma decode_last_2 (a b : ascii) :
  let n := ((N_of_ascii a * 256 + N_of_ascii b) * 4)%N in
  Base64.decode_chars
    [Base64.digit (n / 4096); Base64.digit ((n / 64) mod 64);
     Base64.digit (n mod 64)] 0%N 0%N
  = Some [a; b].
Proof.
  intros n. pose proof (N_of_ascii_lt a). pose proof (N_of_ascii_lt b).
  cbn [Base64.decode_chars].
  rewrite !value_digit by (unfold n; n_arith).
  change (8 <=? 0 + 6)%N with false. cbv iota.
  change (8 <=? 0 + 6 + 6)%N with true. cbv iota.
  change (0 + 6 + 6 - 8)%N with 4%N.
  change (8 <=? 4 + 6)%N with true. cbv iota.
  change (4 + 6 - 8)%N with 2%N.
  change (2 ^ 4)%N with 16%N. change (2 ^ 2)%N with 4%N.
  replace (((0 * 64 + n / 4096) * 64 + (n / 64) mod 64) / 16)%N
    with (N_of_ascii a) by (unfold n; n_arith).
  replace (((((0 * 64 + n / 4096) * 64 + (n / 64) mod 64) mod 16) * 64
            + n mod 64) / 4)%N
    with (N_of_ascii b) by (unfold n; n_arith).
  by rewrite !ascii_N_embedding.
Qed.

Lemma digit_is_Some (n : N) :
  (n < 64)%N -> is_Some (Base64.value (Base64.digit n)).
Proof. intros Hn. rewrite value_digit by done. by eexists. Qed.

(** The output of [encode]: characters of the alphabet, then no, one or
    two [=], a multiple of four in all; the characters of the alphabet
    decode to the bytes. *)
Lemma encode_shape (bytes : list ascii) :
  exists body pad,
    list_ascii_of_string (Base64.encode bytes) = (body ++ pad)%list /\
    Forall (fun c => is_Some (Base64.value c)) body /\
    (pad = [] \/ pad = ["="%char] \/ pad = ["="%char; "="%char]) /\
    (exists k, length (body ++ pad) = 4 * k)%nat /\
    (exists k r, length body = 4 * k + r /\ (r = 0 \/ r = 2 \/ r = 3))%nat /\
    Base64.decode_chars body 0%N 0%N = Some bytes.
Proof.
  induction bytes as [|a|a b|a b c rest IH] using list_ind_by_3.
  - exists [], []. repeat split; auto.
    + by exists 0%nat.
    + exists 0%nat, 0%nat. simpl. lia.
  - pose proof (N_of_ascii_lt a).
    eexists [_; _], [_; _]. split; [reflexivity|]. repeat split.
    + repeat constructor; apply digit_is_Some; n_arith.
    + auto.
    + by exists 1%nat.
    + exists 0%nat, 2%nat. simpl. lia.
    + apply decode_last_1.
  - pose proof (N_of_ascii_lt a). pose proof (N_of_ascii_lt b).
    eexists [_; _; _], [_]. split; [reflexivity|]. repeat split.
    + repeat constructor; apply digit_is_Some; n_arith.
    + auto.
    + by exists 1%nat.
    + exists 0%nat, 3%nat. simpl. lia.
    + apply decode_last_2.
  - destruct IH as (body & pad & Henc & Hbody & Hpad & [k Hk] & (k' & r & Hk' & Hr) & Hdec).
    pose proof (N_of_ascii_lt a). pose proof (N_of_ascii_lt b).
    pose proof (N_of_ascii_lt c).
    eexists (_ :: _ :: _ :: _ :: body), pad. split.
    { cbn [Base64.encode list_ascii_of_string]. rewrite Henc. reflexivity. }
    repeat split.
    + repeat (constructor; [apply digit_is_Some; n_arith|]). done.
    + done.
    + exists (S k). simpl in *. lia.
    + exists (S k'), r. simpl. lia.
    + rewrite decode_group, Hdec. done.
Qed.

Lemma filter_all {A} (f : A -> bool) (l : list A) :
  Forall (fun x => f x = true) l -> List.filter f l = l.
Proof.
  induction 1 as [|x l Hx _ IH]; simpl; [done|]. by rewrite Hx, IH.
Qed.

Lemma strip_padding_plain (k : nat) (body : list ascii) :
  Forall (fun c => c <> "="%char) body ->
  Base64.strip_padding k (rev body) = rev body.
Proof.
  intros Hbody. destruct k as [|k]; [done|].
  destruct (rev body) as [|c rest] eqn:Hrev; [done|]. simpl.
  assert (c ∈ body) as Hc.
  { apply list_elem_of_In, in_rev. rewrite Hrev. by left. }
  rewrite Forall_forall in Hbody. specialize (Hbody c Hc).
  destruct (Ascii.eqb_spec c "="%char); done.
Qed.

Lemma strip_padding_pad (k : nat) (l : list ascii) :
  Base64.strip_padding (S k) ("="%char :: l) = Base64.strip_padding k l.
Proof. reflexivity. Qed.

Lemma strip_padding_encoded (body pad : list ascii) :
  Forall (fun c => c <> "="%char) body ->
  pad = [] \/ pad = ["="%char] \/ pad = ["="%char; "="%char] ->
  rev (Base64.strip_padding 2 (rev (body ++ pad))) = body.
Proof.
  intros Hbody [->|[->| ->]]; rewrite rev_app_distr; cbn [rev app];
    rewrite ?strip_padding_pad, strip_padding_plain by done;
    apply rev_involutive.
Qed.

(** What [Buffer.toString('base64')] writes, [atob] reads back. *)
Lemma atob_encode (bytes : list ascii) :
  Base64.atob (Base64.encode bytes) = Some bytes.
Proof.
  destruct (encode_shape bytes)
    as (body & pad & Henc & Hbody & Hpad & [k Hk] & (k' & r & Hk' & Hr) & Hdec).
  assert (Forall (fun c => c <> "="%char) body) as Hplain.
  { eapply Forall_impl; [exact Hbody|]. intros c Hc. by apply value_Some_plain. }
  unfold Base64.atob. rewrite Henc.
  rewrite filter_all.
  2: { apply Forall_app. split.
       - eapply Forall_impl; [exact Hbody|]. intros c Hc. simpl.
         by destruct (value_Some_plain c Hc) as [-> _].
       - destruct Hpad as [->|[->| ->]]; repeat constructor. }
  rewrite Hk.
  replace (Z.of_nat (4 * k) mod 4 =? 0)%Z with true
    by (symmetry; apply Z.eqb_eq; n_arith).
  rewrite strip_padding_encoded by done. rewrite Hk'.
  replace (Z.of_nat (4 * k' + r) mod 4 =? 1)%Z with false
    by (symmetry; apply Z.eqb_neq; n_arith).
  done.
Qed.

(** ** From capture to replay *)

Lemma write_entries_app (es1 es2 : list LogEntry) (terminal : list ascii) :
  write_entries (es1 ++ es2) terminal =
    if snd (write_entries es1 terminal)
    then write_entries es2 (fst (write_entries es1 terminal))
    else write_entries es1 terminal.
Proof.
  revert terminal. induction es1 as [|e es1 IH]; intros terminal; simpl; [done|].
  destruct (decodeBase64 (data e)); [apply IH | done].
Qed.

Lemma slice0_all {A} (l : list A) (position : Z) :
  Z.of_nat (length l) <= position -> slice0 position l = l.
Proof.
  intros Hpos. unfold slice0. rewrite decide_False by lia.
  apply take_ge. lia.
Qed.

Lemma replay_all_eq (i : Z) (db : D1) :
  replay_all i db = write_logs (map log (select_logs i db)) [].
Proof. unfold replay_all, replayLogs. by rewrite slice0_all. Qed.

Lemma sendLogs_delivered (now : Z) (r : Run) (db : D1) :
  id (run_task r) ∈ map id (tasks db) -> run_logs r <> [] ->
  exists db',
    sendLogs now delivered r db =
      (mkRun (run_task r) (taskData r) [] (intervals r), db', Ok tt) /\
    tasks db' = tasks db /\
    logs db' = (logs db ++ [mkLogRow (max_log_id (logs db) + 1) (id (run_task r))
                              (mkLogChunk now (run_logs r))])%list.
Proof.
  intros Hfk Hbuf. unfold sendLogs.
  destruct (run_logs r) as [|e es] eqn:Hlogs; [done|].
  unfold appendLog, request, post_logs, insert_log.
  rewrite decide_True by done. eexists. split; [reflexivity|]. by split.
Qed.

Lemma capture_holds (i : Z) (shown : list ascii) (stream : string)
    (bytes : list ascii) (r : Run) (db : D1) :
  holds i shown (r, db) ->
  holds i (shown ++ bytes) (capture stream bytes r, db).
Proof.
  intros [Hok Hbuf]. split; [done|]. simpl in *.
  rewrite write_entries_app, Hbuf. simpl.
  unfold decodeBase64. by rewrite atob_encode.
Qed.

Lemma sendLogs_holds (i : Z) (shown : list ascii) (now : Z) (r : Run) (db : D1) :
  i = id (run_task r) -> i ∈ map id (tasks db) ->
  holds i shown (r, db) ->
  holds i shown (sendLogs now delivered r db).1 /\
  tasks (sendLogs now delivered r db).1.2 = tasks db /\
  run_task (sendLogs now delivered r db).1.1 = run_task r.
Proof.
  intros -> Hfk [Hok Hbuf]. simpl in *.
  destruct (run_logs r) as [|e es] eqn:Hlogs.
  { unfold sendLogs. rewrite Hlogs. repeat split; simpl; try done.
    by rewrite Hlogs. }
  destruct (sendLogs_delivered now r db Hfk) as (db' & -> & Ht & Hl);
    [by rewrite Hlogs|].
  split; [|by split]. unfold holds. simpl.
  rewrite replay_all_eq in *. unfold select_logs in *. rewrite Hl, filter_app.
  rewrite filter_cons_True by done. rewrite filter_nil, map_app.
  rewrite write_logs_app, Hok. simpl. rewrite Hlogs, Hbuf. done.
Qed.

Lemma act_all_holds (i : Z) (acts : list Activity) (shown : list ascii)
    (r : Run) (db : D1) :
  i = id (run_task r) -> i ∈ map id (tasks db) ->
  Forall tick_delivered acts ->
  holds i shown (r, db) ->
  holds i (shown ++ output_of acts) (act_all acts (r, db)) /\
  tasks (act_all acts (r, db)).2 = tasks db /\
  run_task (act_all acts (r, db)).1 = run_task r.
Proof.
  intros Hi Hfk Hnet. revert shown r db Hi Hfk.
  induction Hnet as [|a acts Ha _ IH]; intros shown r db Hi Hfk Hholds.
  { simpl. by rewrite app_nil_r. }
  destruct a as [stream bytes|now net]; cbn [act_all foldl act fst snd output_of].
  - destruct (IH (shown ++ bytes)%list (capture stream bytes r) db Hi Hfk)
      as (H1 & H2 & H3); [by apply capture_holds|].
    fold (act_all acts (capture stream bytes r, db)).
    by rewrite app_assoc.
  - simpl in Ha. subst net.
    destruct (sendLogs_holds i shown now r db Hi Hfk Hholds) as (H1 & H2 & H3).
    destruct (sendLogs now delivered r db) as [[r' db'] o]. simpl in *.
    destruct (IH shown r' db') as (H4 & H5 & H6); [congruence..|done|].
    fold (act_all acts (r', db')).
    repeat split; [apply H4.. | congruence | congruence].
Qed.

Lemma updateTask_logs (net : Net) (t : Task) (db : D1) :
  logs (updateTask net t db).1 = logs db.
Proof.
  unfold updateTask, request, put_task.
  destruct net; try case_decide; done.
Qed.

Lemma finalize_logs (code : option Z) (net : Net) (r : Run) (db : D1) :
  logs (finalize code net r db).1.2 = logs db /\
  run_logs (finalize code net r db).1.1 = run_logs r.
Proof.
  unfold finalize. cbn zeta.
  match goal with |- context [updateTask net ?t db] =>
    pose proof (updateTask_logs net t db) as Hl;
    destruct (updateTask net t db) as [db' o]
  end.
  by split.
Qed.

Lemma replay_all_logs (i : Z) (db db' : D1) :
  logs db' = logs db -> replay_all i db' = replay_all i db.
Proof. intros Hl. unfold replay_all, select_logs. by rewrite Hl. Qed.

(** X1. When every flush is delivered and the child exits with 0, nothing
    the child wrote is lost or reordered: after the run, the replay of
    the task's stored chunks shows what it showed before the run,
    followed by the bytes the child wrote on either stream, in the order
    they were captured.  When the child fails, its end stores nothing:
    what was captured after the last flush is not in the store.  Either
    way the buffer is empty afterwards. *)
Theorem output_replayed (acts : list Activity) (code : option Z) (now : Z)
    (r : Run) (db : D1) (shown : list ascii) :
  run_logs r = [] ->
  id (run_task r) ∈ map id (tasks db) ->
  Forall tick_delivered acts ->
  replay_all (id (run_task r)) db = (shown, true) ->
  let '(r1, db1) := act_all acts (r, db) in
  let '(r2, db2, _) := on_close code now delivered delivered r1 db1 in
  run_logs r2 = [] /\
  if decide (code = Some 0)
  then replay_all (id (run_task r)) db2 = ((shown ++ output_of acts)%list, true)
  else db2 = db1.
Proof.
  intros Hbuf Hfk Hnet Hbefore.
  destruct (act_all_holds (id (run_task r)) acts shown r db eq_refl Hfk Hnet)
    as (Hholds & Ht & Hr).
  { split; simpl; rewrite Hbefore; [done|]. by rewrite Hbuf. }
  destruct (act_all acts (r, db)) as [r1 db1]. simpl in Ht, Hr.
  case_decide as Hcode; [|by rewrite on_close_failed].
  subst code. rewrite on_close_zero. cbn zeta. cbn [run_logs].
  set (r0 := mkRun (run_task r1) (taskData r1) (run_logs r1) false).
  assert (holds (id (run_task r)) (shown ++ output_of acts) (r0, db1)) as H0
    by exact Hholds.
  destruct (run_logs r1) as [|e es] eqn:Hlogs.
  - destruct (finalize_logs (Some 0) delivered r0 db1) as [Hl Hb].
    destruct (finalize (Some 0) delivered r0 db1) as [[r2 db2] o]. simpl in *.
    rewrite (replay_all_logs _ _ _ Hl). destruct H0 as [Hok Hw]. simpl in *.
    rewrite ?Hlogs in Hw. simpl in Hw. injection Hw as Hw.
    split; [by rewrite Hb|].
    destruct (replay_all (id (run_task r)) db1); simpl in *. by subst.
  - destruct (sendLogs_holds (id (run_task r)) (shown ++ output_of acts) now r0 db1)
      as ([Hok Hw] & Ht' & Hr');
      [by rewrite <- Hr | by rewrite Ht | done |].
    destruct (sendLogs_delivered now r0 db1) as (db' & Heq & _);
      [simpl; by rewrite Ht, Hr | by simpl |].
    rewrite Heq in *. cbn [fst snd run_logs] in *.
    match goal with |- context [finalize (Some 0) delivered ?r' db'] =>
      destruct (finalize_logs (Some 0) delivered r' db') as [Hl Hb];
      destruct (finalize (Some 0) delivered r' db') as [[r2 db2] o]
    end.
    simpl in *. rewrite (replay_all_logs _ _ _ Hl).
    split; [done|].
    destruct (replay_all (id (run_task r)) db'); simpl in *.
    injection Hw as ->. by subst.
Qed.

Lemma output_replayed_witness :
  let r := mkRun (mkTask 1 "t1" echo_hi "pending") echo_hi [] true in
  let acts := [Output "stdout" ["h"; "i"]%char; Tick 10000 delivered;
               Output "stderr" ["h"; "o"]%char] in
  let '(r1, db1) := act_all acts (r, one_running) in
  let '(r2, db2, _) := on_close (Some 0) 20000 delivered delivered r1 db1 in
  run_logs r2 = [] /\
  if decide (Some 0 = Some 0)
  then replay_all 1 db2 = (([] ++ output_of acts)%list, true)
  else db2 = db1.
Proof.
  apply (output_replayed
           [Output "stdout" ["h"; "i"]%char; Tick 10000 delivered;
            Output "stderr" ["h"; "o"]%char] (Some 0) 20000
           (mkRun (mkTask 1 "t1" echo_hi "pending") echo_hi [] true)
           one_running []).
  - reflexivity.
  - apply (bool_decide_unpack _). vm_compute. reflexivity.
  - repeat constructor.
  - reflexivity.
Defined.

(** The run of the witness with a child that exits with 1: the replay
    shows [hi], which the flush had stored, and not [ho]. *)
Example output_of_failed_child :
  let r := mkRun (mkTask 1 "t1" echo_hi "pending") echo_hi [] true in
  let acts := [Output "stdout" ["h"; "i"]%char; Tick 10000 delivered;
               Output "stderr" ["h"; "o"]%char] in
  let '(r1, db1) := act_all acts (r, one_running) in
  let '(r2, db2, o) := on_close (Some 1) 20000 delivered delivered r1 db1 in
  replay_all 1 db2 = (["h"; "i"]%char, true) /\
  map status (tasks db2) = ["running"] /\
  o = Throw (ExecaError (Some 1)).
Proof. repeat split. Qed.

(** ** Basic authentication *)

Example split_examples :
  split_on " " "Basic abc" = ["Basic"; "abc"] /\
  split_on ":" "" = [""] /\
  split_on ":" "client:pa:ss" = ["client"; "pa"; "ss"] /\
  split_on ":" "client:" = ["client"; ""].
Proof. repeat split. Qed.

Example utf8_examples :
  utf8 "a" = ["a"%char] /\
  utf8 (String (ascii_of_N 233) "") = [ascii_of_N 195; ascii_of_N 169].
Proof. split; reflexivity. Qed.

Lemma N_of_ascii_inj (a b : ascii) : N_of_ascii a = N_of_ascii b -> a = b.
Proof.
  intros Heq. by rewrite <- (ascii_N_embedding a), <- (ascii_N_embedding b), Heq.
Qed.

Lemma utf8_char_cases (c : ascii) :
  ((N_of_ascii c < 128)%N /\ utf8_char c = [c]) \/
  ((128 <= N_of_ascii c)%N /\
   exists hi lo, utf8_char c = [hi; lo] /\
     N_of_ascii hi = (192 + N_of_ascii c / 64)%N /\
     N_of_ascii lo = (128 + N_of_ascii c mod 64)%N).
Proof.
  pose proof (N_of_ascii_lt c) as Hc. unfold utf8_char.
  destruct (N.ltb_spec (N_of_ascii c) 128); [by left|right].
  split; [done|]. eexists _, _. split; [reflexivity|].
  split; apply N_ascii_embedding; n_arith.
Qed.

Lemma utf8_chars_inj (l1 l2 : list ascii) :
  flat_map utf8_char l1 = flat_map utf8_char l2 -> l1 = l2.
Proof.
  revert l2. induction l1 as [|c1 l1 IH]; intros [|c2 l2]; simpl.
  - done.
  - destruct (utf8_char_cases c2) as [[_ ->]|(_ & hi & lo & -> & _)]; done.
  - destruct (utf8_char_cases c1) as [[_ ->]|(_ & hi & lo & -> & _)]; done.
  - destruct (utf8_char_cases c1) as [[H1 ->]|(H1 & hi1 & lo1 & -> & Hhi1 & Hlo1)];
      destruct (utf8_char_cases c2) as [[H2 ->]|(H2 & hi2 & lo2 & -> & Hhi2 & Hlo2)];
      simpl.
    + intros [= -> Heq]. f_equal. by apply IH.
    + intros [= -> Heq]. exfalso. rewrite Hhi2 in H1. n_arith.
    + intros [= <- Heq]. exfalso. rewrite Hhi1 in H2. n_arith.
    + intros [= <- <- Heq]. f_equal; [|by apply IH].
      apply N_of_ascii_inj. rewrite Hhi1 in Hhi2. rewrite Hlo1 in Hlo2.
      n_arith.
Qed.

Lemma list_ascii_of_string_inj (s1 s2 : string) :
  list_ascii_of_string s1 = list_ascii_of_string s2 -> s1 = s2.
Proof.
  intros Heq.
  by rewrite <- (string_of_list_ascii_of_string s1),
             <- (string_of_list_ascii_of_string s2), Heq.
Qed.

Lemma utf8_inj (s1 s2 : string) : utf8 s1 = utf8 s2 -> s1 = s2.
Proof. intros Heq. by apply list_ascii_of_string_inj, utf8_chars_inj. Qed.

Lemma timingSafeEqual_decide (a b : string) :
  timingSafeEqual (Some a) b = bool_decide (a = b).
Proof.
  unfold timingSafeEqual. simpl. case_decide as Hlen.
  - symmetry. apply bool_decide_eq_false. intros ->. done.
  - destruct (decide (a = b)) as [->|Hne].
    + by rewrite !bool_decide_eq_true_2.
    + rewrite !bool_decide_eq_false_2; [done..|].
      intros Heq. by apply utf8_inj in Heq.
Qed.

Lemma utf8_nil (s : string) : utf8 s = [] -> s = "".
Proof. intros Heq. by apply utf8_inj. Qed.

(** X2. [timingSafeEqual] is true exactly for equal strings; with an
    undefined first argument it is true exactly for the empty string. *)
Theorem timingSafeEqual_eq (a b : string) :
  (timingSafeEqual (Some a) b = true <-> a = b) /\
  (timingSafeEqual None b = true <-> b = "").
Proof.
  split.
  - rewrite timingSafeEqual_decide. apply bool_decide_eq_true.
  - unfold timingSafeEqual. simpl. split.
    + case_decide as Hlen; [done|]. intros Heq%bool_decide_eq_true.
      by apply utf8_nil.
    + by intros ->.
Qed.

Lemma split_on_cons (sep : ascii) (s : string) :
  exists seg segs, split_on sep s = seg :: segs.
Proof.
  induction s as [|c s (seg & segs & IH)]; simpl; [by eexists _, _|].
  destruct (Ascii.eqb c sep); [by eexists _, _|].
  rewrite IH. by eexists _, _.
Qed.

(** Up to the first separator, and what follows it. *)
Lemma split_on_app (sep : ascii) (s1 s2 : string) :
  sep ∉ list_ascii_of_string s1 ->
  split_on sep (s1 +:+ String sep s2) = s1 :: split_on sep s2.
Proof.
  induction s1 as [|c s1 IH]; simpl; intros Hsep.
  - by rewrite Ascii.eqb_refl.
  - apply not_elem_of_cons in Hsep as [Hc Hs1].
    destruct (Ascii.eqb_spec c sep) as [->|_]; [done|].
    by rewrite IH.
Qed.

Lemma split_on_none (sep : ascii) (s : string) :
  sep ∉ list_ascii_of_string s -> split_on sep s = [s].
Proof.
  induction s as [|c s IH]; simpl; intros Hsep; [done|].
  apply not_elem_of_cons in Hsep as [Hc Hs].
  destruct (Ascii.eqb_spec c sep) as [->|_]; [done|].
  by rewrite IH.
Qed.

Lemma utf8_ascii (s : string) :
  is_ascii s -> utf8 s = list_ascii_of_string s.
Proof.
  unfold is_ascii, utf8. generalize (list_ascii_of_string s). intros l.
  induction 1 as [|c l Hc _ IH]; simpl; [done|].
  unfold utf8_char at 1. apply N.ltb_lt in Hc. rewrite Hc. simpl. by f_equal.
Qed.

Lemma list_ascii_of_string_app (s1 s2 : string) :
  list_ascii_of_string (s1 +:+ s2) =
    (list_ascii_of_string s1 ++ list_ascii_of_string s2)%list.
Proof. induction s1 as [|c s1 IH]; simpl; [done|]. by rewrite IH. Qed.

Lemma encode_no_space (bytes : list ascii) :
  " "%char ∉ list_ascii_of_string (Base64.encode bytes).
Proof.
  destruct (encode_shape bytes) as (body & pad & -> & Hbody & Hpad & _).
  intros Hin. apply elem_of_app in Hin as [Hin|Hin].
  - rewrite Forall_forall in Hbody. specialize (Hbody _ Hin).
    by destruct (value_Some_plain _ Hbody).
  - destruct Hpad as [->|[->| ->]]; repeat (apply elem_of_cons in Hin as [Hin|Hin]; [done|]); by apply elem_of_nil in Hin.
Qed.

Lemma before_colon_plain (s : string) :
  ":"%char ∉ list_ascii_of_string s -> before_colon s = s.
Proof. intros Hs. unfold before_colon. by rewrite split_on_none. Qed.

Lemma basicAuth_authHeader (username password pass : string) :
  is_ascii username -> is_ascii password ->
  ":"%char ∉ list_ascii_of_string username ->
  basicAuth (Some (authHeader username password)) pass =
    Some (bool_decide (before_colon password = pass)).
Proof.
  intros Hu Hp Hcolon. unfold basicAuth, authHeader.
  set (b64 := Base64.encode _).
  change ("Basic " +:+ b64) with ("Basic" +:+ String " " b64).
  replace (String.prefix "Basic " ("Basic" +:+ String " " b64)) with true
    by (simpl; by rewrite String.prefix_correct || by destruct b64).
  cbn [negb]. rewrite split_on_app by (by apply (bool_decide_unpack _)).
  rewrite split_on_none by apply encode_no_space.
  change (default "" (["Basic"; b64] !! 1%nat)) with b64.
  unfold b64. rewrite atob_encode.
  rewrite utf8_ascii.
  2: { unfold is_ascii. rewrite list_ascii_of_string_app. apply Forall_app.
       split; [done|]. simpl. constructor; [done|]. exact Hp. }
  rewrite string_of_list_ascii_of_string.
  change (username +:+ ":" +:+ password)
    with (username +:+ String ":" password).
  rewrite split_on_app by done.
  destruct (split_on_cons ":" password) as (seg & segs & Hsplit).
  unfold before_colon. rewrite Hsplit. simpl.
  by rewrite timingSafeEqual_decide.
Qed.

(** X3. The worker accepts the header of a [WorkerClient] exactly when the
    part of the client's password before its first colon is
    [BASIC_PASS]; for a password without a colon, exactly when the two
    passwords are equal. *)
Theorem basicAuth_client (username password pass : string) :
  is_ascii username -> is_ascii password ->
  ":"%char ∉ list_ascii_of_string username ->
  basicAuth (Some (authHeader username password)) pass =
    Some (bool_decide (before_colon password = pass)) /\
  (":"%char ∉ list_ascii_of_string password ->
   basicAuth (Some (authHeader username password)) pass =
     Some (bool_decide (password = pass))).
Proof.
  intros Hu Hp Hcolon.
  pose proof (basicAuth_authHeader username password pass Hu Hp Hcolon) as Hauth.
  split; [done|]. intros Hplain. by rewrite Hauth, before_colon_plain.
Qed.

Lemma basicAuth_client_witness :
  basicAuth (Some (authHeader "client" "se:cret")) "se" =
    Some (bool_decide (before_colon "se:cret" = "se")) /\
  (":"%char ∉ list_ascii_of_string "se:cret" ->
   basicAuth (Some (authHeader "client" "se:cret")) "se" =
     Some (bool_decide ("se:cret" = "se"))).
Proof.
  apply (basicAuth_client "client" "se:cret" "se").
  - apply (bool_decide_unpack _). vm_compute. reflexivity.
  - apply (bool_decide_unpack _). vm_compute. reflexivity.
  - apply (bool_decide_unpack _). vm_compute. reflexivity.
Defined.

(** A password with a colon: the client is let in with [se:cret] when
    the worker's password is [se], and kept out when it is [se:cret]. *)
Example colon_in_password :
  basicAuth (Some (authHeader "client" "se:cret")) "se" = Some true /\
  basicAuth (Some (authHeader "client" "se:cret")) "se:cret" = Some false.
Proof. split; reflexivity. Qed.

(** X4. A request of a [WorkerClient] reaches the router only over HTTPS and
    with the worker's password; otherwise it is answered 400 or 401 and
    the store is not touched.  A request without a header is answered
    401. *)
Theorem fetch_gate (pass protocol username password : string)
    (router : D1 -> D1 * Response) (db : D1) :
  is_ascii username -> is_ascii password ->
  ":"%char ∉ list_ascii_of_string username ->
  ":"%char ∉ list_ascii_of_string password ->
  worker_fetch pass protocol (Some (authHeader username password)) router db =
    (if negb (String.eqb protocol "https:")
     then (db, Some (mkResponse 400 (Text "Please use HTTPS")))
     else if bool_decide (password = pass)
          then ((router db).1, Some (router db).2)
          else (db, Some (mkResponse 401 (Text "Unauthorized")))) /\
  worker_fetch pass "https:" None router db =
    (db, Some (mkResponse 401 (Text "Unauthorized"))).
Proof.
  intros Hu Hp Hcu Hcp. split; [|done]. unfold worker_fetch.
  rewrite (basicAuth_authHeader username password pass Hu Hp Hcu).
  rewrite before_colon_plain by done.
  destruct (negb _); [done|].
  destruct (bool_decide _); [|done]. by destruct (router db).
Qed.

Lemma fetch_gate_witness :
  worker_fetch "secret" "https:" (Some (authHeader "client" "guess"))
    (post_tasks_start "t1") one_pending =
    (if negb (String.eqb "https:" "https:")
     then (one_pending, Some (mkResponse 400 (Text "Please use HTTPS")))
     else if bool_decide ("guess" = "secret")
          then ((post_tasks_start "t1" one_pending).1,
                Some (post_tasks_start "t1" one_pending).2)
          else (one_pending, Some (mkResponse 401 (Text "Unauthorized")))) /\
  worker_fetch "secret" "https:" None (post_tasks_start "t1") one_pending =
    (one_pending, Some (mkResponse 401 (Text "Unauthorized"))).
Proof.
  apply (fetch_gate "secret" "https:" "client" "guess").
  - apply (bool_decide_unpack _). vm_compute. reflexivity.
  - apply (bool_decide_unpack _). vm_compute. reflexivity.
  - apply (bool_decide_unpack _). vm_compute. reflexivity.
  - apply (bool_decide_unpack _). vm_compute. reflexivity.
Defined.

(** ** What the schema keeps true of the two tables *)

Lemma max_id_ge (rows : list Task) (r : Task) :
  r ∈ rows -> id r <= max_id rows.
Proof.
  induction rows as [|x rows IH]; intros Hr; [by apply elem_of_nil in Hr|].
  apply elem_of_cons in Hr as [->|Hr]; simpl; [lia|].
  specialize (IH Hr). lia.
Qed.

Lemma sorted_map_same_id (f : Task -> Task) (rows : list Task) :
  (forall r, id (f r) = id r) ->
  StronglySorted task_id_lt rows -> StronglySorted task_id_lt (map f rows).
Proof.
  intros Hf. induction 1 as [|x l Hl IH Hx]; simpl; constructor; [done|].
  rewrite Forall_forall in Hx |- *. intros y Hy.
  apply list_elem_of_fmap in Hy as (y0 & -> & Hy0).
  unfold task_id_lt. rewrite !Hf. by apply Hx.
Qed.

Lemma map_id_same (f : Task -> Task) (rows : list Task) :
  (forall r, id (f r) = id r) -> map id (map f rows) = map id rows.
Proof.
  intros Hf. rewrite map_map. apply map_ext. intros r. apply Hf.
Qed.

Lemma update_consistent (f : Task -> Task) (db : D1) :
  (forall r, id (f r) = id r) ->
  consistent db ->
  consistent (mkD1 (map f (tasks db)) (tasks_seq db) (logs db)).
Proof.
  intros Hf (Hs & Hseq & Hl & Hfk). repeat split; simpl.
  - by apply sorted_map_same_id.
  - rewrite Forall_forall in Hseq |- *. intros y Hy.
    apply list_elem_of_fmap in Hy as (y0 & -> & Hy0). rewrite Hf. by apply Hseq.
  - done.
  - by rewrite map_id_same.
Qed.

Lemma delete_where_consistent (P : Task -> Prop) `{!forall r, Decision (P r)}
    (db : D1) :
  consistent db -> consistent (delete_where P db).1.
Proof.
  intros (Hs & Hseq & Hl & Hfk). repeat split; simpl.
  - by apply StronglySorted_filter_keep.
  - rewrite Forall_forall in Hseq |- *. intros y Hy.
    apply list_elem_of_filter in Hy as [_ Hy]. by apply Hseq.
  - by apply StronglySorted_filter_keep.
  - rewrite Forall_forall in Hfk |- *. intros l Hl'.
    apply list_elem_of_filter in Hl' as [Hgone Hl'].
    specialize (Hfk l Hl'). apply list_elem_of_fmap in Hfk as (r & Hid & Hr).
    apply list_elem_of_fmap. exists r. split; [done|].
    apply list_elem_of_filter. split; [|done]. intros HP.
    apply Hgone. apply list_elem_of_fmap. exists r. split; [done|].
    apply list_elem_of_filter. by split.
Qed.

Lemma insert_task_consistent (tg : string) (tk : TaskData) (st : string)
    (db : D1) :
  consistent db -> consistent (insert_task tg tk st db).1.
Proof.
  intros (Hs & Hseq & Hl & Hfk). repeat split; simpl.
  - apply StronglySorted_app_2; [|done|repeat constructor].
    intros x1 x2 Hx1 Hx2. apply list_elem_of_singleton in Hx2 as ->.
    unfold task_id_lt. simpl. pose proof (max_id_ge _ _ Hx1). lia.
  - apply Forall_app. split.
    + eapply Forall_impl; [exact Hseq|]. simpl. intros; lia.
    + apply Forall_singleton. simpl. lia.
  - done.
  - eapply Forall_impl; [exact Hfk|]. simpl. intros l Hin.
    rewrite map_app. apply elem_of_app. by left.
Qed.

Lemma exec_consistent (s : Stmt) (db : D1) :
  consistent db -> consistent (exec s db).
Proof.
  intros Hdb. destruct s; cbn [exec].
  - by apply insert_task_consistent.
  - apply (update_consistent _ db); [|done]. intros r. by case_decide.
  - apply (update_consistent _ db); [|done]. intros r. by case_decide.
  - by apply delete_where_consistent.
  - by apply delete_where_consistent.
  - by apply delete_where_consistent.
  - by apply delete_where_consistent.
  - by apply delete_where_consistent.
  - destruct (insert_log tid lg db) as [db'|] eqn:Hins; simpl; [|done].
    pose proof Hdb as (Hs & Hseq & Hl & Hfk).
    pose proof (insert_log_sorted tid lg db db' Hl Hins) as Hl'.
    unfold insert_log in Hins. case_decide as Hin; [|done].
    injection Hins as <-. repeat split; simpl; try done.
    apply Forall_app. split; [done|]. by apply Forall_singleton.
Qed.

Lemma exec_all_consistent (ss : list Stmt) (db : D1) :
  consistent db -> consistent (exec_all ss db).
Proof.
  revert db. induction ss as [|s ss IH]; intros db Hdb; [done|].
  simpl. apply IH. by apply exec_consistent.
Qed.

Lemma empty_consistent : consistent empty_db.
Proof. repeat split; constructor. Qed.

Lemma reachable_consistent (ss : list Stmt) :
  consistent (exec_all ss empty_db).
Proof. apply exec_all_consistent, empty_consistent. Qed.

Lemma sorted_ids_unique (rows : list Task) (x y : Task) :
  StronglySorted task_id_lt rows ->
  x ∈ rows -> y ∈ rows -> id x = id y -> x = y.
Proof.
  induction 1 as [|z l Hl IH Hz]; intros Hx Hy Heq.
  { by apply elem_of_nil in Hx. }
  rewrite Forall_forall in Hz. unfold task_id_lt in Hz.
  apply elem_of_cons in Hx as [->|Hx]; apply elem_of_cons in Hy as [->|Hy].
  - done.
  - specialize (Hz _ Hy). lia.
  - specialize (Hz _ Hx). lia.
  - by apply IH.
Qed.

Lemma exec_seq_mono (s : Stmt) (db : D1) :
  tasks_seq db <= tasks_seq (exec s db).
Proof.
  destruct s; simpl; try lia.
  unfold insert_log. case_decide; simpl; lia.
Qed.

Lemma exec_all_seq_mono (ss : list Stmt) (db : D1) :
  tasks_seq db <= tasks_seq (exec_all ss db).
Proof.
  revert db. induction ss as [|s ss IH]; intros db; simpl; [lia|].
  etrans; [apply (exec_seq_mono s)|apply IH].
Qed.

(** X5. Task ids are never handed out twice: a task inserted at any later
    time, whatever was deleted in between, gets an id above that of every
    task the table ever held; the ids in the table are pairwise
    different. *)
Theorem ids_never_reused (ss1 ss2 : list Stmt) (r : Task) (tg : string)
    (tk : TaskData) (st : string) :
  r ∈ tasks (exec_all ss1 empty_db) ->
  id r < (insert_task tg tk st (exec_all ss2 (exec_all ss1 empty_db))).2 /\
  NoDup (map id (tasks (exec_all ss1 empty_db))).
Proof.
  intros Hr. destruct (reachable_consistent ss1) as (Hs & Hseq & _).
  split.
  - rewrite Forall_forall in Hseq. specialize (Hseq r Hr).
    pose proof (exec_all_seq_mono ss2 (exec_all ss1 empty_db)).
    unfold insert_task. cbn [snd]. lia.
  - clear Hr Hseq. induction Hs as [|x l Hl IH Hx]; simpl; constructor; [|done].
    intros Hin. apply list_elem_of_fmap in Hin as (y & Hid & Hy).
    rewrite Forall_forall in Hx. specialize (Hx y Hy). unfold task_id_lt in Hx. lia.
Qed.

Lemma ids_never_reused_witness :
  id (mkTask 1 "t1" echo_hi "pending") <
    (insert_task "t2" echo_ho "pending"
       (exec_all [DeleteAll] (exec_all [InsertTask "t1" echo_hi "pending"] empty_db))).2 /\
  NoDup (map id (tasks (exec_all [InsertTask "t1" echo_hi "pending"] empty_db))).
Proof.
  apply (ids_never_reused [InsertTask "t1" echo_hi "pending"] [DeleteAll]).
  apply (bool_decide_unpack _). vm_compute. reflexivity.
Defined.

Lemma select_logs_nil (i : Z) (db : D1) :
  consistent db -> i ∉ map id (tasks db) -> select_logs i db = [].
Proof.
  intros (_ & _ & _ & Hfk) Hi. unfold select_logs.
  induction (logs db) as [|l ls IH]; [done|].
  apply Forall_cons in Hfk as [Hl Hls].
  rewrite filter_cons_False; [by apply IH|]. intros Heq. by rewrite Heq in Hl.
Qed.

(** X6. No log outlives its task: in every database the worker's statements
    can reach, each row of [logs] belongs to a stored task, and fetching
    the logs of an id that no task has gives an empty list. *)
Theorem no_orphan_logs (ss : list Stmt) (i : Z) (l : LogRow) :
  let db := exec_all ss empty_db in
  (l ∈ logs db -> exists r, r ∈ tasks db /\ id r = task_id l) /\
  (i ∉ map id (tasks db) -> snd (get_logs i db) = mkResponse 200 (JLogs [])).
Proof.
  intros db. pose proof (reachable_consistent ss) as Hc. fold db in Hc. split.
  - intros Hl. destruct Hc as (_ & _ & _ & Hfk).
    rewrite Forall_forall in Hfk. specialize (Hfk l Hl).
    apply list_elem_of_fmap in Hfk as (r & Hid & Hr). by exists r.
  - intros Hi. unfold get_logs. simpl. by rewrite select_logs_nil.
Qed.

Lemma no_orphan_logs_witness :
  let db := exec_all [InsertTask "t1" echo_hi "pending";
                      InsertLog 1 (mkLogChunk 10000 []); DeleteId 1] empty_db in
  snd (get_logs 1 db) = mkResponse 200 (JLogs []).
Proof.
  apply (no_orphan_logs [InsertTask "t1" echo_hi "pending";
                         InsertLog 1 (mkLogChunk 10000 []); DeleteId 1]
           1 (mkLogRow 1 1 (mkLogChunk 10000 []))).
  apply (bool_decide_unpack _). vm_compute. reflexivity.
Defined.

Lemma filter_fresh (rows : list Task) (n : Z) :
  Forall (fun r => id r < n) rows -> filter (fun r => id r = n) rows = [].
Proof.
  induction 1 as [|x l Hx _ IH]; [done|].
  rewrite filter_cons_False by lia. done.
Qed.

Lemma max_id_fresh (rows : list Task) (n : Z) :
  Forall (fun r => id r < Z.max (max_id rows) n + 1) rows.
Proof.
  apply Forall_forall. intros r Hr. pose proof (max_id_ge _ _ Hr). lia.
Qed.

Lemma post_tasks_valid (tg : string) (tk : TaskData) (st : string) (db : D1) :
  st ∈ status_enum ->
  let row := mkTask (Z.max (max_id (tasks db)) (tasks_seq db) + 1) tg tk st in
  post_tasks tg tk st db =
    (mkD1 (tasks db ++ [row]) (id row) (logs db), mkResponse 201 (JTask row)).
Proof.
  intros Hst row. unfold post_tasks. rewrite decide_True by done.
  unfold insert_task. cbn zeta. fold row. unfold select_task. cbn [tasks].
  rewrite filter_app, filter_cons_True, filter_nil by done.
  by rewrite (filter_fresh (tasks db)
                (Z.max (max_id (tasks db)) (tasks_seq db) + 1)
                (max_id_fresh _ _)).
Qed.

(** X7. POST /tasks with a status of the enum appends one row, whose id is
    above every id in the table, and answers 201 with exactly that row;
    with any other status it answers 400 and stores nothing. *)
Theorem post_tasks_creates (tg : string) (tk : TaskData) (st : string) (db : D1) :
  let row := mkTask (Z.max (max_id (tasks db)) (tasks_seq db) + 1) tg tk st in
  (st ∈ status_enum ->
   post_tasks tg tk st db =
     (mkD1 (tasks db ++ [row]) (id row) (logs db), mkResponse 201 (JTask row)) /\
   Forall (fun r => id r < id row) (tasks db)) /\
  (st ∉ status_enum -> post_tasks tg tk st db = (db, mkResponse 400 JErrors)).
Proof.
  intros row. split.
  - intros Hst. split; [by apply post_tasks_valid | apply max_id_fresh].
  - intros Hst. unfold post_tasks. by rewrite decide_False.
Qed.

Lemma post_tasks_creates_witness :
  post_tasks "t1" echo_ho "pending" two_pending =
    (mkD1 (tasks two_pending ++ [mkTask 4 "t1" echo_ho "pending"]) 4 [],
     mkResponse 201 (JTask (mkTask 4 "t1" echo_ho "pending"))) /\
  post_tasks "t1" echo_ho "stale" two_pending =
    (two_pending, mkResponse 400 JErrors).
Proof.
  pose proof (post_tasks_creates "t1" echo_ho "pending" two_pending) as [H1 _].
  pose proof (post_tasks_creates "t1" echo_ho "stale" two_pending) as [_ H2].
  split.
  - apply H1. apply (bool_decide_unpack _). vm_compute. reflexivity.
  - apply H2. apply (bool_decide_unpack _). vm_compute. reflexivity.
Defined.

(** ** Deleting and updating one task *)

Lemma filter_nil_Forall {A} (P : A -> Prop) `{!forall x, Decision (P x)}
    (l : list A) :
  Forall (fun x => ~ P x) l -> filter P l = [].
Proof.
  induction 1 as [|x l Hx _ IH]; [done|]. by rewrite filter_cons_False.
Qed.

(** X8. DELETE /tasks/:id answers 200 whether or not the task exists.
    Afterwards neither the task nor any of its logs is there, and every
    other task and its logs are as before. *)
Theorem delete_task_cascades (ss : list Stmt) (i j : Z) :
  let db := exec_all ss empty_db in
  let db' := (delete_task i db).1 in
  (delete_task i db).2 = mkResponse 200 JOk /\
  select_task i db' = [] /\ select_logs i db' = [] /\
  (j <> i ->
   select_task j db' = select_task j db /\ select_logs j db' = select_logs j db).
Proof.
  intros db db'. pose proof (reachable_consistent ss) as Hc. fold db in Hc.
  split; [done|]. unfold db', delete_task, select_task, select_logs.
  cbn [fst delete_where tasks logs].
  assert (forall l, task_id l ∉ map id (filter (fun r => id r = i) (tasks db))
                    \/ task_id l = i) as Hgone.
  { intros l. destruct (decide (task_id l = i)); [by right|left].
    intros Hin. apply list_elem_of_fmap in Hin as (r & Hid & Hr).
    apply list_elem_of_filter in Hr as [Hr _]. congruence. }
  split; [|split].
  - rewrite list_filter_filter. apply filter_nil_Forall, Forall_forall.
    intros r _ [H1 H2]. done.
  - rewrite list_filter_filter. apply filter_nil_Forall, Forall_forall.
    intros l Hl [Hid Hkept]. apply Hkept.
    destruct Hc as (_ & _ & _ & Hfk). rewrite Forall_forall in Hfk.
    specialize (Hfk l Hl). apply list_elem_of_fmap in Hfk as (r & Hr1 & Hr2).
    apply list_elem_of_fmap. exists r. split; [done|].
    apply list_elem_of_filter. split; [congruence|done].
  - intros Hne. split; rewrite list_filter_filter; apply list_filter_iff.
    + intros r. split; [tauto|]. intros Hr. split; [done|]. congruence.
    + intros l. split; [tauto|]. intros Hl. split; [done|].
      destruct (Hgone l) as [?|?]; [done|congruence].
Qed.

Lemma delete_task_cascades_witness :
  let db' := (delete_task 1 (exec_all [InsertTask "t1" echo_hi "pending";
                                      InsertTask "t1" echo_ho "pending";
                                      InsertLog 1 (mkLogChunk 10000 []);
                                      InsertLog 2 (mkLogChunk 20000 [])] empty_db)).1 in
  select_task 2 db' = [mkTask 2 "t1" echo_ho "pending"] /\
  select_logs 2 db' = [mkLogRow 2 2 (mkLogChunk 20000 [])].
Proof.
  pose proof (delete_task_cascades [InsertTask "t1" echo_hi "pending";
                                    InsertTask "t1" echo_ho "pending";
                                    InsertLog 1 (mkLogChunk 10000 []);
                                    InsertLog 2 (mkLogChunk 20000 [])] 1 2)
    as (_ & _ & _ & Hother).
  destruct Hother as [H1 H2]; [lia|].
  split; [exact H1 | exact H2].
Defined.

(** X9. PUT /tasks/:id with a status of the enum answers 200 even when no
    task has the id, and then changes nothing.  It never adds, removes or
    renumbers a task, never touches the logs, and leaves every task with
    another id as it was. *)
Theorem put_task_frame (i : Z) (body : Task) (db : D1) (r : Task) :
  status body ∈ status_enum ->
  let db' := (put_task i body db).1 in
  (put_task i body db).2 = mkResponse 200 JOk /\
  map id (tasks db') = map id (tasks db) /\
  logs db' = logs db /\ tasks_seq db' = tasks_seq db /\
  (r ∈ tasks db -> id r <> i -> r ∈ tasks db') /\
  (i ∉ map id (tasks db) -> db' = db).
Proof.
  intros Hst db'. unfold db', put_task. rewrite decide_True by done.
  cbn [fst snd]. split; [done|]. split; [|split; [done|split; [done|split]]].
  - unfold update_task. cbn [tasks]. apply map_id_same. intros x. by case_decide.
  - intros Hr Hne. apply update_task_elem_of. exists r. split; [done|].
    by rewrite decide_False.
  - intros Hi. unfold update_task. destruct db as [ts sq ls]. cbn in *. f_equal.
    induction ts as [|x ts IH]; [done|]. cbn in *.
    apply not_elem_of_cons in Hi as [Hx Hts].
    rewrite decide_False by done. f_equal. by apply IH.
Qed.

Lemma put_task_frame_witness :
  let db' := (put_task 7 (mkTask 7 "t1" echo_hi "done") one_pending).1 in
  (put_task 7 (mkTask 7 "t1" echo_hi "done") one_pending).2 = mkResponse 200 JOk /\
  db' = one_pending.
Proof.
  pose proof (put_task_frame 7 (mkTask 7 "t1" echo_hi "done") one_pending
                (mkTask 1 "t1" echo_hi "pending")) as H.
  destruct H as (H1 & _ & _ & _ & _ & H2).
  - apply (bool_decide_unpack _). vm_compute. reflexivity.
  - split; [exact H1|]. apply H2. apply (bool_decide_unpack _). vm_compute. reflexivity.
Defined.

(** ** Claims on a consistent store *)

Lemma order_by_id_sorted (rows : list Task) :
  StronglySorted task_id_lt rows -> order_by_id rows = rows.
Proof.
  intros Hs. unfold order_by_id.
  apply (StronglySorted_unique_strong id_le).
  - intros x1 x2 Hx1 Hx2 H12 H21. rewrite merge_sort_Permutation in Hx1.
    apply (sorted_ids_unique rows); try done. unfold id_le in *. lia.
  - apply StronglySorted_merge_sort; apply _.
  - clear -Hs. induction Hs as [|x l Hl IH Hx]; constructor; [done|].
    eapply Forall_impl; [exact Hx|]. unfold task_id_lt, id_le. intros; lia.
  - apply merge_sort_Permutation.
Qed.

Lemma select_next_pending_head (tg : string) (db : D1) :
  consistent db ->
  select_next_pending tg db =
    head (filter (fun r => tag r = tg /\ status r = "pending") (tasks db)).
Proof.
  intros (Hs & _). unfold select_next_pending.
  by rewrite order_by_id_sorted by by apply StronglySorted_filter_keep.
Qed.

Lemma map_at_one {A} (f : A -> A) (l : list A) (k : nat) (x : A) :
  l !! k = Some x -> NoDup l -> (forall y, y ∈ l -> y <> x -> f y = y) ->
  map f l = <[k := f x]> l.
Proof.
  revert k. induction l as [|y l IH]; intros k Hk Hnd Hf; [done|].
  apply NoDup_cons in Hnd as [Hy Hnd]. destruct k as [|k]; simpl in *.
  - injection Hk as ->. f_equal. clear IH.
    induction l as [|z l IH]; [done|]. simpl.
    apply not_elem_of_cons in Hy as [Hz Hl]. apply NoDup_cons in Hnd as [_ Hnd].
    rewrite Hf; [|by right; left|done]. f_equal. apply IH; [done..|].
    intros w Hw Hne. apply Hf; [|done]. apply elem_of_cons in Hw as [->|Hw].
    + by left.
    + by right; right.
  - rewrite Hf; [|by left|].
    + f_equal. apply IH; [done..|]. intros w Hw. apply Hf. by right.
    + intros ->. apply Hy. by eapply list_elem_of_lookup_2.
Qed.

Lemma sorted_NoDup (rows : list Task) :
  StronglySorted task_id_lt rows -> NoDup rows.
Proof.
  induction 1 as [|x l Hl IH Hx]; constructor; [|done].
  intros Hin. rewrite Forall_forall in Hx. specialize (Hx x Hin).
  unfold task_id_lt in Hx. lia.
Qed.

(** X10. A claim changes one row and nothing else: the selected task goes
    from pending to running in place; every other row, the ids and the
    logs stay as they are. *)
Theorem claim_changes_one_row (ss : list Stmt) (tg : string) (t : Task) :
  let db := exec_all ss empty_db in
  select_next_pending tg db = Some t ->
  exists k,
    tasks db !! k = Some t /\
    post_tasks_start tg db =
      (mkD1 (<[k := mkTask (id t) (tag t) (task t) "running"]> (tasks db))
            (tasks_seq db) (logs db),
       mkResponse 200 (JTask t)).
Proof.
  intros db Hsel. pose proof (reachable_consistent ss) as Hc. fold db in Hc.
  destruct (select_next_pending_Some _ _ _ Hsel) as (Hin & _ & Hst).
  apply list_elem_of_lookup in Hin as [k Hk]. exists k. split; [done|].
  unfold post_tasks_start. rewrite Hsel.
  assert (snd (update_start (id t) db) = true) as Hch.
  { apply update_start_changed, Exists_exists. exists t. split; [|done].
    by eapply list_elem_of_lookup_2. }
  destruct (update_start (id t) db) as [db' ch] eqn:Hup. simpl in Hch. subst ch.
  f_equal. unfold update_start in Hup. injection Hup as <- _. f_equal.
  destruct Hc as (Hs & _).
  rewrite (map_at_one _ _ k t Hk (sorted_NoDup _ Hs)).
  - by rewrite decide_True.
  - intros y Hy Hne. rewrite decide_False; [done|]. intros [Hid _].
    apply Hne. apply (sorted_ids_unique (tasks db)); try done.
    by eapply list_elem_of_lookup_2.
Qed.

Lemma claim_changes_one_row_witness :
  exists k,
    tasks (exec_all [InsertTask "t1" echo_hi "pending"] empty_db) !! k =
      Some (mkTask 1 "t1" echo_hi "pending") /\
    post_tasks_start "t1" (exec_all [InsertTask "t1" echo_hi "pending"] empty_db) =
      (mkD1 (<[k := mkTask 1 "t1" echo_hi "running"]>
               (tasks (exec_all [InsertTask "t1" echo_hi "pending"] empty_db)))
            (tasks_seq (exec_all [InsertTask "t1" echo_hi "pending"] empty_db))
            (logs (exec_all [InsertTask "t1" echo_hi "pending"] empty_db)),
       mkResponse 200 (JTask (mkTask 1 "t1" echo_hi "pending"))).
Proof.
  apply (claim_changes_one_row [InsertTask "t1" echo_hi "pending"] "t1"
           (mkTask 1 "t1" echo_hi "pending")).
  reflexivity.
Defined.

(** The answers of the router to a request without a body have status
    200, 404 or 500 when no other request comes in between. *)
Lemma router_fetch_status (route : Route) (db : D1) :
  res_status (router_fetch route db).2 ∈ [200; 404; 500].
Proof.
  destruct route as [| | | | |tg|tg|tg|tg|[i|]|i|[i|]| |[i|]| |];
    cbn [router_fetch];
    rewrite ?post_tasks_start_answer;
    unfold get_tags, get_tasks, delete_tasks, delete_tasks_completed,
      get_tasks_tag, delete_tasks_tag, delete_tasks_tag_completed, get_task,
      delete_task, get_logs, internal_error;
    try (destruct (delete_where _ _));
    cbn [snd res_status]; apply (bool_decide_unpack _); reflexivity.
Qed.

(** X11. A claim served without another request in between never answers
    409: the handler answers 200 with what its SELECT found, and the
    client gets that task, or no task, whenever its request reaches the
    handler with this tag.  Whatever route the request of the client
    ends at, the client does not throw an error of status 409. *)
Theorem claim_alone_never_conflicts (tg : string) (db : D1) :
  snd (post_tasks_start tg db) =
    mkResponse 200 (json_first (select_next_pending tg db)) /\
  (forall h tg0,
     route_of h "POST" ("/tasks/start/" +:+ tg0) = POST_tasks_start tg ->
     snd (startNextTask h delivered tg0 db) = Ok (select_next_pending tg db)) /\
  (forall h tg0 message,
     snd (startNextTask h delivered tg0 db) <> Throw (ResponseError message 409)).
Proof.
  split; [by rewrite post_tasks_start_answer|]. split.
  - intros h tg0 Hroute. by rewrite (startNextTask_routed h tg0 tg).
  - intros h tg0 message. unfold startNextTask, request.
    pose proof (router_fetch_status
                  (route_of h "POST" ("/tasks/start/" +:+ tg0)) db) as Hst.
    destruct (router_fetch _ db) as [db' res]. cbn [snd] in *.
    unfold read_response. case_decide as Hok.
    + by destruct (taskOrNullSchema _).
    + intros [= _ Hstatus]. rewrite Hstatus in Hst.
      by apply (bool_decide_pack _) in Hst.
Qed.

(** ** Cycles of the agent *)

(** X12. With no pending task of the tag that reaches the handler, a cycle
    claims, gets no task and returns [false]: the store is unchanged, no
    preparation command runs and nothing is spawned.  When the request
    does not reach the worker the cycle is rejected with the network
    error, not ended as an empty queue. *)
Theorem cycle_without_task (cfg : Config) (h : Host) (tg tg' : string) (db : D1) :
  route_of h "POST" ("/tasks/start/" +:+ tg) = POST_tasks_start tg' ->
  Forall (fun r => ~ (tag r = tg' /\ status r = "pending")) (tasks db) ->
  runNextTask cfg h delivered tg db = (db, [Claim tg], NoTask) /\
  runNextTask cfg h request_lost tg db = (db, [Claim tg], Rejected FetchError).
Proof.
  intros Hroute Hnone. split; [|done].
  apply select_next_pending_None_iff in Hnone.
  unfold runNextTask. by rewrite (startNextTask_routed h tg tg' db Hroute), Hnone.
Qed.

Lemma cycle_without_task_witness :
  runNextTask prepared_config offline_host delivered "t1" one_running =
    (one_running, [Claim "t1"], NoTask) /\
  runNextTask prepared_config offline_host request_lost "t1" one_running =
    (one_running, [Claim "t1"], Rejected FetchError).
Proof.
  apply (cycle_without_task prepared_config offline_host "t1" "t1" one_running).
  - reflexivity.
  - apply (bool_decide_unpack _). vm_compute. reflexivity.
Defined.

(** A tag with a space, on a host whose URL parser escapes it: the
    handler looks for the tag [a%20b], so the cycle finds no task
    although one with the tag [a b] is pending, and it claims the task
    that is stored under [a%20b] when there is one. *)
Example cycle_with_escaped_tag :
  runNextTask plain_config escaping_host delivered "a b"
    (mkD1 [mkTask 1 "a b" echo_hi "pending"] 1 []) =
    (mkD1 [mkTask 1 "a b" echo_hi "pending"] 1 [], [Claim "a b"], NoTask) /\
  runNextTask plain_config escaping_host delivered "a b"
    (mkD1 [mkTask 1 "a b" echo_hi "pending";
           mkTask 2 "a%20b" echo_ho "pending"] 2 []) =
    (mkD1 [mkTask 1 "a b" echo_hi "pending";
           mkTask 2 "a%20b" echo_ho "running"] 2 [],
     [Claim "a b"; Spawn ["echo"; "ho"]],
     Started (mkRun (mkTask 2 "a%20b" echo_ho "pending") echo_ho [] true)).
Proof. split; reflexivity. Qed.

Lemma run_preTask_passes (h : Host) (cmds : list (string + list string)) :
  Forall (fun c => exit_of h (preTask_command h c) = 0) cmds ->
  run_preTask h cmds =
    (map (fun c => PreTask (preTask_command h c) 0) cmds, Ok tt).
Proof.
  induction 1 as [|c cmds Hc _ IH]; [done|].
  cbn [run_preTask map].
  rewrite decide_True by done. by rewrite IH, Hc.
Qed.

(** X13. When a pending task of the tag that reaches the handler exists and
    every preparation command exits with 0, a cycle claims the pending
    task of that tag with the lowest id, runs the preparation commands
    in their order and then spawns the command of that task; the run
    starts with an empty buffer. *)
Theorem cycle_spawns_claimed_command (cfg : Config) (h : Host) (tg tg' : string)
    (db : D1) (r : Task) :
  route_of h "POST" ("/tasks/start/" +:+ tg) = POST_tasks_start tg' ->
  r ∈ tasks db -> tag r = tg' -> status r = "pending" ->
  Forall (fun c => exit_of h (preTask_command h c) = 0)
         (default [] (preTask cfg)) ->
  exists t,
    select_next_pending tg' db = Some t /\
    (forall r', r' ∈ tasks db -> tag r' = tg' -> status r' = "pending" ->
                id t <= id r') /\
    runNextTask cfg h delivered tg db =
      ((update_start (id t) db).1,
       (Claim tg :: map (fun c => PreTask (preTask_command h c) 0)
                       (default [] (preTask cfg))
          ++ [Spawn (command (task t))])%list,
       Started (mkRun t (task t) [] true)).
Proof.
  intros Hroute Hr Htag Hst Hprep.
  destruct (select_next_pending_is_Some tg' db r Hr Htag Hst) as [t Ht].
  exists t. split; [done|]. split.
  { intros r' Hr' Htag' Hst'. by eapply select_next_pending_least. }
  unfold runNextTask. rewrite (startNextTask_routed h tg tg' db Hroute), Ht.
  destruct (preTask cfg) as [cmds|]; simpl in *.
  - by rewrite (run_preTask_passes h cmds Hprep).
  - done.
Qed.

Lemma cycle_spawns_claimed_command_witness :
  exists t,
    select_next_pending "t1" two_pending = Some t /\
    (forall r', r' ∈ tasks two_pending -> tag r' = "t1" -> status r' = "pending" ->
                id t <= id r') /\
    runNextTask prepared_config online_host delivered "t1" two_pending =
      ((update_start (id t) two_pending).1,
       (Claim "t1" :: map (fun c => PreTask (preTask_command online_host c) 0)
                         (default [] (preTask prepared_config))
          ++ [Spawn (command (task t))])%list,
       Started (mkRun t (task t) [] true)).
Proof.
  apply (cycle_spawns_claimed_command prepared_config online_host "t1" "t1"
           two_pending (mkTask 3 "t1" echo_ho "pending")).
  - reflexivity.
  - apply (bool_decide_unpack _). vm_compute. reflexivity.
  - reflexivity.
  - reflexivity.
  - repeat constructor.
Defined.

(** ** Adding and cleaning *)

Lemma max_id_le (rows : list Task) (n : Z) :
  0 <= n -> Forall (fun r => id r <= n) rows -> max_id rows <= n.
Proof. intros Hn. induction 1 as [|x l Hx _ IH]; simpl; lia. Qed.

(** X14. [add] stores a pending task with the command, no exit code and no
    heartbeat, under the next id of the sequence, and returns it.  The
    new task waits its turn: the next claim of its tag still gets the
    task it would have got before, and gets the new one only if no task
    of the tag was pending. *)
Theorem add_then_claim (ss : list Stmt) (cfg : Config) (tg : option string)
    (cmd : list string) (tg' : string) :
  let db := exec_all ss empty_db in
  pick_tag cfg tg = Some tg' ->
  let t := mkTask (tasks_seq db + 1) tg' (mkTaskData cmd None None) "pending" in
  add cfg delivered tg cmd db =
    (mkD1 (tasks db ++ [t]) (tasks_seq db + 1) (logs db), Ok t) /\
  select_next_pending tg' (add cfg delivered tg cmd db).1 =
    match select_next_pending tg' db with
    | Some old => Some old
    | None => Some t
    end.
Proof.
  intros db Htag t. pose proof (reachable_consistent ss) as Hc. fold db in Hc.
  pose proof (exec_all_seq_mono ss empty_db) as Hseq0. fold db in Hseq0.
  simpl in Hseq0.
  assert (Z.max (max_id (tasks db)) (tasks_seq db) + 1 = tasks_seq db + 1) as Hid.
  { destruct Hc as (_ & Hseq & _). pose proof (max_id_le _ _ Hseq0 Hseq). lia. }
  assert (add cfg delivered tg cmd db =
            (mkD1 (tasks db ++ [t]) (tasks_seq db + 1) (logs db), Ok t)) as Hadd.
  { unfold add. rewrite Htag. unfold createTask, request.
    rewrite post_tasks_valid by (by constructor). cbn [id]. by rewrite Hid. }
  split; [done|]. rewrite Hadd. cbn [fst].
  assert (consistent (mkD1 (tasks db ++ [t]) (tasks_seq db + 1) (logs db))) as Hc'.
  { pose proof (insert_task_consistent tg' (mkTaskData cmd None None) "pending"
                  db Hc) as Hi.
    unfold insert_task in Hi. cbn [fst] in Hi. by rewrite Hid in Hi. }
  rewrite !select_next_pending_head by done. cbn [tasks].
  rewrite filter_app, filter_cons_True, filter_nil by done.
  by destruct (filter _ (tasks db)).
Qed.

Lemma add_then_claim_witness :
  let db := exec_all [InsertTask "t1" echo_hi "pending"] empty_db in
  let t := mkTask (tasks_seq db + 1) "t1" (mkTaskData ["echo"; "ho"] None None)
             "pending" in
  add plain_config delivered (Some "") ["echo"; "ho"] db =
    (mkD1 (tasks db ++ [t]) (tasks_seq db + 1) (logs db), Ok t) /\
  select_next_pending "t1" (add plain_config delivered (Some "") ["echo"; "ho"] db).1 =
    match select_next_pending "t1" db with
    | Some old => Some old
    | None => Some t
    end.
Proof.
  apply (add_then_claim [InsertTask "t1" echo_hi "pending"] plain_config
           (Some "") ["echo"; "ho"] "t1").
  reflexivity.
Defined.

Lemma delete_where_logs_kept (P : Task -> Prop) `{!forall r, Decision (P r)}
    (db : D1) (r : Task) :
  consistent db -> r ∈ tasks (delete_where P db).1 ->
  select_logs (id r) (delete_where P db).1 = select_logs (id r) db.
Proof.
  intros (Hs & _) Hr. cbn [delete_where fst tasks] in Hr.
  apply list_elem_of_filter in Hr as [HnP Hr].
  unfold select_logs. cbn [delete_where fst logs].
  rewrite list_filter_filter. apply list_filter_iff. intros l.
  split; [tauto|]. intros Hl. split; [done|]. rewrite Hl.
  intros Hin. apply list_elem_of_fmap in Hin as (g & Hid & Hg).
  apply list_elem_of_filter in Hg as [HP Hg].
  assert (r = g) as -> by by apply (sorted_ids_unique (tasks db)).
  done.
Qed.

Lemma filter_True_all {A} (l : list A) : filter (fun _ => True) l = l.
Proof.
  induction l as [|x l IH]; [done|]. rewrite filter_cons_True by done.
  by f_equal.
Qed.

Lemma filter_all_Forall {A} (P : A -> Prop) `{!forall x, Decision (P x)}
    (l : list A) :
  Forall P l -> filter P l = l.
Proof.
  induction 1 as [|x l Hx _ IH]; [done|]. rewrite filter_cons_True by done.
  by f_equal.
Qed.

(** X15. [clean] deletes exactly the completed tasks, those of the tag that
    reaches the handler if a tag is given, and reports the number of
    rows that went: the deleted tasks and the log rows deleted with
    them.  The other tasks stay in their order, each with all of its
    logs. *)
Theorem clean_removes_completed (ss : list Stmt) (h : Host) (tg : option string)
    (tg' : string) (r : Task) :
  let db := exec_all ss empty_db in
  (forall t, truthy tg = Some t ->
     route_of h "DELETE" ("/tasks/tag/" +:+ t +:+ "/completed") =
       DELETE_tasks_tag_completed tg') ->
  let which := (fun _ => tg') <$> truthy tg in
  let db' := (clean h delivered tg db).1 in
  (clean h delivered tg db).2 =
    Ok (Z.of_nat (length (filter (cleaned which) (tasks db))
                  + length (cascaded (cleaned which) db))) /\
  tasks db' = filter (fun x => ~ cleaned which x) (tasks db) /\
  (r ∈ tasks db' -> select_logs (id r) db' = select_logs (id r) db).
Proof.
  intros db Hroute which db'. pose proof (reachable_consistent ss) as Hc.
  fold db in Hc. unfold which, db', clean. clear which db'.
  destruct (truthy tg) as [t|] eqn:Htr.
  - unfold deleteCompletedTasksByTag, request. rewrite (Hroute t eq_refl).
    cbn [router_fetch fmap option_fmap option_map].
    unfold delete_tasks_tag_completed.
    pose proof (delete_where_logs_kept
                  (fun x => tag x = tg' /\ status x = "done") db r Hc) as Hlogs.
    destruct (delete_where _ db) as [db1 n] eqn:Hdel.
    unfold delete_where in Hdel. injection Hdel as <- <-. by repeat split.
  - unfold deleteCompletedTasks, request.
    cbn [fmap option_fmap option_map].
    unfold delete_tasks_completed.
    pose proof (delete_where_logs_kept (fun x => status x = "done") db r Hc)
      as Hlogs.
    destruct (delete_where _ db) as [db1 n] eqn:Hdel.
    unfold delete_where in Hdel. injection Hdel as <- <-. by repeat split.
Qed.

Lemma clean_removes_completed_witness :
  let db := exec_all [InsertTask "t1" echo_hi "done";
                      InsertTask "t1" echo_ho "pending";
                      InsertLog 1 (mkLogChunk 10000 []);
                      InsertLog 1 (mkLogChunk 20000 []);
                      InsertLog 2 (mkLogChunk 30000 [])] empty_db in
  (clean online_host delivered (Some "t1") db).2 = Ok 3 /\
  tasks (clean online_host delivered (Some "t1") db).1 =
    [mkTask 2 "t1" echo_ho "pending"] /\
  select_logs 2 (clean online_host delivered (Some "t1") db).1 = select_logs 2 db.
Proof.
  pose proof (clean_removes_completed
                [InsertTask "t1" echo_hi "done";
                 InsertTask "t1" echo_ho "pending";
                 InsertLog 1 (mkLogChunk 10000 []);
                 InsertLog 1 (mkLogChunk 20000 []);
                 InsertLog 2 (mkLogChunk 30000 [])] online_host (Some "t1") "t1"
                (mkTask 2 "t1" echo_ho "pending")) as H.
  destruct H as (Hcount & Htasks & Hlogs).
  - intros t [= <-]. reflexivity.
  - split; [exact Hcount|]. split; [exact Htasks|].
    apply Hlogs. apply (bool_decide_unpack _). vm_compute. reflexivity.
Defined.

(** X16. [reset] without a tag leaves both tables empty and reports the
    number of rows there were in the two of them; the sequence of task
    ids is kept, so a task added afterwards does not get an old id. *)
Theorem reset_empties (ss : list Stmt) (h : Host) :
  let db := exec_all ss empty_db in
  reset h delivered None db =
    (mkD1 [] (tasks_seq db) [],
     Ok (Z.of_nat (length (tasks db) + length (logs db)))).
Proof.
  intros db. pose proof (reachable_consistent ss) as (_ & _ & _ & Hfk).
  fold db in Hfk.
  unfold reset, truthy, deleteTasks, request, delete_tasks, delete_where.
  cbn [fst snd read_response numberSchema res_body res_status].
  rewrite filter_True_all.
  rewrite (filter_nil_Forall (fun _ : Task => ~ True))
    by (apply Forall_forall; intros x _ Hnot; by apply Hnot).
  rewrite (filter_nil_Forall (fun l => task_id l ∉ map id (tasks db)))
    by (eapply Forall_impl; [exact Hfk|]; intros l Hl Hnot; by apply Hnot).
  rewrite (filter_all_Forall (fun l => task_id l ∈ map id (tasks db))) by done.
  unfold read_response. by rewrite decide_True by (cbn; lia).
Qed.

(** Two tasks and one log row: [reset] reports 3. *)
Example reset_counts_cascade :
  reset online_host delivered None
    (exec_all [InsertTask "t1" echo_hi "done";
               InsertTask "t2" echo_ho "pending";
               InsertLog 1 (mkLogChunk 10000 [])] empty_db) =
    (mkD1 [] 2 [], Ok 3).
Proof. reflexivity. Qed.

(** ** What [list] shows *)

(** X17. A task whose run sent a heartbeat and whose child exited with 0 is
    listed as stale, in yellow, once that heartbeat is more than a
    minute old, although its stored status is "done".  No exit code is
    shown for it, and none is shown for any task in a store reached
    through the commands and the runs: the only exit code a run stores
    is 0, which [list] leaves out. *)
Theorem finished_task_listed_stale (evs : list Event) (now later beat : Z)
    (r : Run) (db : D1) (row : Task) :
  lastHeartbeat (taskData r) = Some beat ->
  later - beat > STALE_THRESHOLD_MS ->
  row ∈ tasks (on_close (Some 0) now delivered delivered r db).1.2 ->
  id row = id (run_task r) ->
  status row = "done" /\
  list_task later row =
    mkListed "yellow"
      ("#" +:+ pretty (id row) +:+ " [" +:+ tag row +:+ ", stale]")
      ("> " +:+ String.concat " " (command (taskData r))) /\
  Forall (fun t => exit_suffix (exitCode (task t)) = "")
    (tasks (store (steps evs initial))).
Proof.
  intros Hbeat Hold Hrow Hid. split; [|split].
  - by rewrite (on_close_rows _ _ _ _ Hrow Hid).
  - rewrite (on_close_rows _ _ _ _ Hrow Hid).
    unfold list_task. cbn [task lastHeartbeat exitCode status id tag command].
    rewrite Hbeat, bool_decide_eq_true_2 by done. done.
  - eapply Forall_impl; [apply (reachable_rows_ok evs)|].
    intros t [_ Hzero]. unfold exit_suffix.
    destruct (exitCode (task t)) as [c|]; [|done].
    by rewrite (Hzero c eq_refl).
Qed.

Lemma finished_task_listed_stale_witness :
  status (mkTask 1 "t1" (mkTaskData ["echo"; "hi"] (Some 0) (Some 30000)) "done")
    = "done" /\
  list_task 100000
    (mkTask 1 "t1" (mkTaskData ["echo"; "hi"] (Some 0) (Some 30000)) "done") =
    mkListed "yellow" ("#" +:+ pretty 1 +:+ " [" +:+ "t1" +:+ ", stale]")
      ("> " +:+ String.concat " " ["echo"; "hi"]) /\
  Forall (fun t => exit_suffix (exitCode (task t)) = "")
    (tasks (store (steps one_full_run initial))).
Proof.
  apply (finished_task_listed_stale one_full_run 31000 100000 30000
           (mkRun (mkTask 1 "t1" echo_hi "pending")
              (mkTaskData ["echo"; "hi"] None (Some 30000)) [] true)
           one_running
           (mkTask 1 "t1" (mkTaskData ["echo"; "hi"] (Some 0) (Some 30000)) "done")).
  - reflexivity.
  - unfold STALE_THRESHOLD_MS. lia.
  - apply (bool_decide_unpack _). vm_compute. reflexivity.
  - reflexivity.
Defined.

Example list_one_done :
  list_tasks online_host 100000 delivered None one_done =
    Ok [mkListed "yellow" "#1 [t1, stale]" "> echo hi"].
Proof. reflexivity. Qed.

(** ** Replay positions *)

Lemma take_prefix_le {A} (l : list A) (a b : nat) :
  (a <= b)%nat -> take a l `prefix_of` take b l.
Proof.
  intros Hab. exists (drop a (take b l)).
  rewrite <- (take_drop a (take b l)) at 1. f_equal.
  rewrite take_take. f_equal. lia.
Qed.

(** X18. The replay grows with the position: for [0 <= j <= k], what the
    replay at [j] writes is a prefix of what the replay at [k] writes.
    At position 0 nothing is written, and every position from the
    number of chunks on gives the full replay. *)
Theorem replay_monotone (stored : list LogChunk) (j k : Z)
    (before before' : list ascii) :
  0 <= j <= k ->
  fst (replayLogs stored j before) `prefix_of` fst (replayLogs stored k before') /\
  replayLogs stored 0 before = ([], true) /\
  (Z.of_nat (length stored) <= k ->
   replayLogs stored k before =
     replayLogs stored (Z.of_nat (length stored)) before).
Proof.
  intros Hjk. split; [|split].
  - unfold replayLogs, terminal_reset, slice0. rewrite !decide_False by lia.
    destruct (take_prefix_le stored (Z.to_nat j) (Z.to_nat k)) as [rest ->]; [lia|].
    rewrite write_logs_app.
    destruct (write_logs (take (Z.to_nat j) stored) []) as [shown [|]];
      cbn [fst snd]; [|done].
    apply write_logs_extends.
  - done.
  - intros Hk. unfold replayLogs. by rewrite !slice0_all by lia.
Qed.

Lemma replay_monotone_witness :
  fst (replayLogs two_chunks 0 []) `prefix_of` fst (replayLogs two_chunks 5 []) /\
  replayLogs two_chunks 0 [] = ([], true) /\
  (Z.of_nat (length two_chunks) <= 5 ->
   replayLogs two_chunks 5 [] =
     replayLogs two_chunks (Z.of_nat (length two_chunks)) []).
Proof. apply (replay_monotone two_chunks 0 5). lia. Defined.

(** ** Heartbeats and the end of a run, seen from the queue *)

(** X19. A delivered heartbeat of a run puts its task back in the queue,
    whatever has happened to the store since the claim, as long as the
    task is still there: the task is pending again under its tag.  A
    claim of that tag is then answered with a task, which is the run's
    own task, carrying the time of the heartbeat, unless a task of the
    tag with a lower id is pending. *)
Theorem heartbeat_reopens_claim (cfg : Config) (h : Host) (tg : string)
    (db db1 db2 : D1) (acts : list Action) (r : Run) (now : Z) :
  runNextTask cfg h delivered tg db = (db1, acts, Started r) ->
  id (run_task r) ∈ map id (tasks db2) ->
  let db3 := (heartbeat now delivered r db2).2 in
  exists t',
    select_next_pending (tag (run_task r)) db3 = Some t' /\
    snd (post_tasks_start (tag (run_task r)) db3) = mkResponse 200 (JTask t') /\
    id t' <= id (run_task r) /\
    (id t' = id (run_task r) -> lastHeartbeat (task t') = Some now) /\
    ((forall x, x ∈ tasks db2 -> tag x = tag (run_task r) ->
                status x = "pending" -> id (run_task r) <= id x) ->
     id t' = id (run_task r)).
Proof.
  intros Hrun Hthere db3.
  apply runNextTask_Started in Hrun as (t & Hstart & ->).
  apply startNextTask_Some in Hstart as (_ & tg' & _ & Hsel & _).
  destruct (select_next_pending_Some _ _ _ Hsel) as (_ & _ & Hst).
  set (r := mkRun t (task t) [] true) in *.
  set (row := mkTask (id t) (tag t)
                (mkTaskData (command (task t)) (exitCode (task t)) (Some now))
                "pending").
  assert (forall x, x ∈ tasks db3 ->
            x = row \/ (x ∈ tasks db2 /\ id x <> id t)) as Hrows.
  { intros x Hx. apply heartbeat_rows in Hx as (r1 & Hr1 & ->); [|done].
    cbn [run_task r taskData] in *.
    case_decide as Hd; [left; by rewrite Hd|right]. by split. }
  assert (row ∈ tasks db3) as Hrow.
  { apply list_elem_of_fmap in Hthere as (r0 & Hid & Hr0).
    apply heartbeat_rows; [done|]. exists r0. split; [done|].
    cbn [run_task r taskData id] in *. by rewrite decide_True, <- Hid. }
  destruct (select_next_pending_is_Some (tag t) db3 row Hrow) as [t' Ht'];
    [done..|].
  exists t'. cbn [run_task r].
  destruct (select_next_pending_Some _ _ _ Ht') as (Hin' & Htag' & Hst').
  pose proof (select_next_pending_least _ _ _ _ Ht' Hrow eq_refl eq_refl) as Hle.
  cbn [id row] in Hle.
  split; [done|]. split; [by rewrite post_tasks_start_answer, Ht'|].
  split; [done|]. split.
  - intros Hid. destruct (Hrows t' Hin') as [->|[_ Hne]]; done.
  - intros Hlow. destruct (Hrows t' Hin') as [->|[Hold Hne]]; [done|].
    specialize (Hlow t' Hold Htag' Hst'). lia.
Qed.

Lemma heartbeat_reopens_claim_witness :
  exists t',
    select_next_pending "t1"
      (heartbeat 30000 delivered
         (mkRun (mkTask 1 "t1" echo_hi "pending") echo_hi [] true) one_running).2
      = Some t' /\
    snd (post_tasks_start "t1"
           (heartbeat 30000 delivered
              (mkRun (mkTask 1 "t1" echo_hi "pending") echo_hi [] true)
              one_running).2) = mkResponse 200 (JTask t') /\
    id t' <= 1 /\
    (id t' = 1 -> lastHeartbeat (task t') = Some 30000) /\
    ((forall x, x ∈ tasks one_running -> tag x = "t1" ->
                status x = "pending" -> 1 <= id x) ->
     id t' = 1).
Proof.
  apply (heartbeat_reopens_claim plain_config offline_host "t1" one_pending
           one_running one_running [Claim "t1"; Spawn ["echo"; "hi"]]
           (mkRun (mkTask 1 "t1" echo_hi "pending") echo_hi [] true) 30000).
  - reflexivity.
  - apply (bool_decide_unpack _). vm_compute. reflexivity.
Defined.

(** Two runs: the run of task 2 sends a heartbeat after the run of task 1
    has sent one.  Both tasks are pending again, and the next claim is
    answered with task 1, the older one. *)
Example heartbeats_of_two_runs :
  let claimed := mkD1 [mkTask 1 "t1" echo_hi "running";
                       mkTask 2 "t1" echo_ho "running"] 2 [] in
  let r1 := mkRun (mkTask 1 "t1" echo_hi "pending") echo_hi [] true in
  let r2 := mkRun (mkTask 2 "t1" echo_ho "pending") echo_ho [] true in
  let db := (heartbeat 31000 delivered r2 (heartbeat 30000 delivered r1 claimed).2).2 in
  map status (tasks db) = ["pending"; "pending"] /\
  id <$> select_next_pending "t1" db = Some 1.
Proof. split; reflexivity. Qed.

(** X20. With a buffer that is not empty and a flush that fails, the end
    of a child leaves the rows of [tasks] as they are, whatever the exit
    code: the task is not marked done and gets no exit code, and the
    buffered output is dropped.  After exit code 0 the handler of
    [close] stops at the failed flush; after any other end the runner
    has gone with the error of the child. *)
Theorem failed_final_flush (code : option Z) (now : Z) (net_log net_task : Net)
    (r : Run) (db : D1) :
  run_logs r <> [] -> net_log <> delivered ->
  let '(r', db', o) := on_close code now net_log net_task r db in
  o = Throw (if decide (code = Some 0) then FetchError else ExecaError code) /\
  tasks db' = tasks db /\ run_logs r' = [] /\
  intervals r' = false.
Proof.
  intros Hbuf Hnet. case_decide as Hcode; [|by rewrite on_close_failed].
  subst code. rewrite on_close_zero. cbn zeta. cbn [run_logs].
  destruct (run_logs r) as [|e es] eqn:Hlogs; [done|].
  unfold sendLogs. cbn [run_logs run_task taskData intervals].
  pose proof (appendLog_tasks net_log (id (run_task r)) (mkLogChunk now (e :: es)) db)
    as Ht.
  unfold appendLog, request in *.
  destruct net_log; [done|..]; cbn [fst snd] in *; by repeat split.
Qed.

Lemma failed_final_flush_witness :
  let '(r', db', o) :=
    on_close (Some 0) 31000 request_lost delivered run_with_output one_running in
  o = Throw (if decide (Some 0 = Some 0) then FetchError else ExecaError (Some 0)) /\
  tasks db' = tasks one_running /\ run_logs r' = [] /\
  intervals r' = false.
Proof.
  apply (failed_final_flush (Some 0) 31000 request_lost delivered
           run_with_output one_running); discriminate.
Defined.
